(** * CyberRisk Advisor: the [/analyze_logs] endpoint of [main.py]

    A shallow embedding of the request handler [analyze_logs], of its helper
    [call_agi_agent], and of the library calls they rely on ([str.strip],
    [str.replace], [json.loads], [dict.get]), followed by the properties of
    the service's request/response contract. *)

From Stdlib Require Import String Ascii.
From Stdlib Require Import List NArith ZArith Bool Lia DecimalString.
Import ListNotations.

Set Warnings "-register-all".

(** ** Text

    A Python [str] is a sequence of Unicode code points. *)

Definition char := N.
Definition str := list char.

(** An ASCII literal as a [str]. *)
Definition txt (s : string) : str :=
  map N_of_ascii (list_ascii_of_string s).

Fixpoint str_eqb (a b : str) : bool :=
  match a, b with
  | [], [] => true
  | x :: a', y :: b' => N.eqb x y && str_eqb a' b'
  | _, _ => false
  end.

(** A few code points that have no literal of their own. *)
Definition c_quote : char := 34%N.
Definition c_backslash : char := 92%N.
Definition c_newline : char := 10%N.
Definition c_backtick : char := 96%N.

(** [str.isspace] on one code point: the set [str.strip()] removes. *)
Definition is_space (c : char) : bool :=
  ((9 <=? c) && (c <=? 13) || (28 <=? c) && (c <=? 32) || (c =? 133)
   || (c =? 160) || (c =? 5760) || (8192 <=? c) && (c <=? 8202)
   || (c =? 8232) || (c =? 8233) || (c =? 8239) || (c =? 8287)
   || (c =? 12288))%N.

Fixpoint lstrip (p : char -> bool) (s : str) : str :=
  match s with
  | [] => []
  | c :: t => if p c then lstrip p t else s
  end.

Definition rstrip (p : char -> bool) (s : str) : str :=
  rev (lstrip p (rev s)).

(** [s.strip()] and [s.strip(chars)]: both ends, the left one first. *)
Definition strip_by (p : char -> bool) (s : str) : str :=
  rstrip p (lstrip p s).

Definition py_strip (s : str) : str := strip_by is_space s.

Definition py_strip_chars (chars s : str) : str :=
  strip_by (fun c => existsb (N.eqb c) chars) s.

(** [Some r] when [s] is [p] followed by [r]: the test [s[i:i+len(p)] == p]
    together with the text after the match. *)
Fixpoint after_prefix (p s : str) : option str :=
  match p, s with
  | [], _ => Some s
  | x :: p', y :: s' => if N.eqb x y then after_prefix p' s' else None
  | _ :: _, [] => None
  end.

Arguments after_prefix p s : simpl never.

(** [s.replace(old, new, 1)]: the leftmost occurrence of [old] only. *)
Fixpoint replace_first (old new s : str) : str :=
  match after_prefix old s with
  | Some r => new ++ r
  | None =>
      match s with
      | [] => []
      | c :: t => c :: replace_first old new t
      end
  end.

(** ** Results and exceptions *)

Inductive exn :=
| HTTPException (status_code : Z) (detail : str)
| JSONDecodeError
| AttributeError
| TypeError
| KeyError
| IndexError
| ValidationError
| TransportError.

Inductive res (A : Type) :=
| Ok (a : A)
| Raise (e : exn).
Arguments Ok {A} a.
Arguments Raise {A} e.

Definition bind {A B} (m : res A) (k : A -> res B) : res B :=
  match m with
  | Ok a => k a
  | Raise e => Raise e
  end.

Notation "x <- m ;; k" := (bind m (fun x => k))
  (at level 61, m at next level, right associativity).

Fixpoint mapM {A B} (f : A -> res B) (l : list A) : res (list B) :=
  match l with
  | [] => Ok []
  | a :: t => b <- f a ;; bs <- mapM f t ;; Ok (b :: bs)
  end.

Definition of_option {A} (e : exn) (o : option A) : res A :=
  match o with
  | Some a => Ok a
  | None => Raise e
  end.

(** The outcome of a scan by the JSON decoder below: a value, a decoding
    error, or a recursion budget that ran out. *)
Inductive outcome (A : Type) :=
| Got (a : A)
| Bad
| Starved.
Arguments Got {A} a.
Arguments Bad {A}.
Arguments Starved {A}.

(** ** Dictionaries

    A [dict] keeps its keys in insertion order; a key set twice keeps its
    first position and its last value. *)

Section Dict.
Variable V : Type.

Fixpoint dict_get (d : list (str * V)) (k : str) : option V :=
  match d with
  | [] => None
  | (k', v) :: r => if str_eqb k' k then Some v else dict_get r k
  end.

Fixpoint dict_set (d : list (str * V)) (k : str) (v : V) : list (str * V) :=
  match d with
  | [] => [(k, v)]
  | (k', v') :: r =>
      if str_eqb k' k then (k', v) :: r else (k', v') :: dict_set r k v
  end.

Definition dict_of_pairs (pairs : list (str * V)) : list (str * V) :=
  fold_left (fun d kv => dict_set d (fst kv) (snd kv)) pairs [].

(** [d.get(k, default)] *)
Definition get_default (d : list (str * V)) (k : str) (default : V) : V :=
  match dict_get d k with
  | Some v => v
  | None => default
  end.

End Dict.

Arguments dict_get {V} d k.
Arguments dict_set {V} d k v.
Arguments dict_of_pairs {V} pairs.
Arguments get_default {V} d k default.

(** ** Values

    What [json.loads] can return.  Python's floats stay abstract: the
    decoder reads one through its [parse_float] hook, which is [float] by
    default. *)

Class Floats := {
  float : Type;
  parse_float : str -> float
}.

Section Model.

Context {F : Floats}.

Inductive pyval :=
| PyNone
| PyBool (b : bool)
| PyInt (z : Z)
| PyFloat (x : float)
| PyStr (s : str)
| PyList (l : list pyval)
| PyDict (d : list (str * pyval)).

(** ** [json.loads]

    The decoder of [json.decoder] and [json.scanner], reading a suffix of
    the text instead of an index into it.  A scan either yields a value and
    the rest of the text, or fails ([JSONDecodeError]); [Starved] is the
    model's own third outcome, for a recursion budget that ran out, and
    [decode_never_starves] shows that [json_loads] never meets it.

    Digits are the ASCII ones and an escape takes four hex digits, as in
    the C scanner.  Two resource limits of the interpreter stay outside the
    model: the recursion limit on the depth of nesting and the limit on the
    number of digits of an integer literal, past which [json.loads] raises
    [RecursionError] and [ValueError] where the model goes on decoding. *)

(** [WHITESPACE = re.compile(r'[ \t\n\r]*')] *)
Definition is_json_ws (c : char) : bool :=
  ((c =? 32) || (c =? 9) || (c =? 10) || (c =? 13))%N.

Definition skip_ws (s : str) : str := lstrip is_json_ws s.

(** The text after [p], when [p] is what comes after the blanks. *)
Definition expect (p : str) (s : str) : option str :=
  after_prefix p (skip_ws s).

Definition is_digit (c : char) : bool := ((48 <=? c) && (c <=? 57))%N.

Fixpoint span_digits (s : str) : str * str :=
  match s with
  | [] => ([], [])
  | c :: t =>
      if is_digit c then let (d, r) := span_digits t in (c :: d, r)
      else ([], s)
  end.

Definition prepend (p : str) (o : option (str * str)) : option (str * str) :=
  match o with
  | Some (d, r) => Some (p ++ d, r)
  | None => None
  end.

(** One digit or more *)
Definition match_digits (s : str) : option (str * str) :=
  match span_digits s with
  | ([], _) => None
  | (d, r) => Some (d, r)
  end.

(** [NUMBER_RE]: an integer part (an optional minus sign, then a lone
    zero or a digit run with no leading zero), an optional fraction (a dot
    and digits) and an optional exponent (e or E, an optional sign, digits),
    one group at a time. *)
Definition match_unsigned (s : str) : option (str * str) :=
  match s with
  | [] => None
  | c :: t =>
      if (c =? 48)%N then Some ([c], t)
      else if is_digit c then let (d, r) := span_digits t in Some (c :: d, r)
      else None
  end.

Definition match_integer (s : str) : option (str * str) :=
  match s with
  | [] => None
  | c :: t =>
      if (c =? 45)%N then prepend [c] (match_unsigned t)
      else match_unsigned s
  end.

Definition match_frac (s : str) : option (str * str) :=
  match s with
  | [] => None
  | c :: t => if (c =? 46)%N then prepend [c] (match_digits t) else None
  end.

Definition match_exp (s : str) : option (str * str) :=
  match s with
  | [] => None
  | c :: t =>
      if ((c =? 101) || (c =? 69))%N then
        match t with
        | [] => None
        | g :: t' =>
            if ((g =? 43) || (g =? 45))%N then prepend [c; g] (match_digits t')
            else prepend [c] (match_digits t)
        end
      else None
  end.

Definition int_of_digits (ds : str) : Z :=
  fold_left (fun a c => (a * 10 + Z.of_N (c - 48))%Z) ds 0%Z.

(** [int(integer)] on a match of the first group. *)
Definition parse_int (lit : str) : Z :=
  match lit with
  | c :: ds => if (c =? 45)%N then (- int_of_digits ds)%Z else int_of_digits lit
  | [] => 0%Z
  end.

(** [frac] and [exp] are empty where the group did not match. *)
Definition match_number (s : str) : option (pyval * str) :=
  match match_integer s with
  | None => None
  | Some (integer, r0) =>
      let (frac, r1) :=
        match match_frac r0 with
        | Some fr => fr
        | None => ([], r0)
        end in
      let (exp, r2) :=
        match match_exp r1 with
        | Some er => er
        | None => ([], r1)
        end in
      match frac ++ exp with
      | [] => Some (PyInt (parse_int integer), r2)
      | _ :: _ => Some (PyFloat (parse_float (integer ++ frac ++ exp)), r2)
      end
  end.

(** String bodies: [scanstring] in strict mode, called just after the
    opening quote. *)
Definition hex_val (c : char) : option N :=
  (if (48 <=? c) && (c <=? 57) then Some (c - 48)
   else if (97 <=? c) && (c <=? 102) then Some (c - 87)
   else if (65 <=? c) && (c <=? 70) then Some (c - 55)
   else None)%N.

Definition hex_digit (acc : N) (s : str) : option (N * str) :=
  match s with
  | [] => None
  | c :: r =>
      match hex_val c with
      | Some v => Some ((acc * 16 + v)%N, r)
      | None => None
      end
  end.

(** Four hex digits, after the [u] of an escape. *)
Definition decode_uXXXX (s : str) : option (N * str) :=
  match hex_digit 0 s with
  | None => None
  | Some (a, r1) =>
      match hex_digit a r1 with
      | None => None
      | Some (b, r2) =>
          match hex_digit b r2 with
          | None => None
          | Some (c, r3) => hex_digit c r3
          end
      end
  end.

(** The [BACKSLASH] table. *)
Definition unescape (e : char) : option char :=
  (if e =? 34 then Some 34
   else if e =? 92 then Some 92
   else if e =? 47 then Some 47
   else if e =? 98 then Some 8
   else if e =? 102 then Some 12
   else if e =? 110 then Some 10
   else if e =? 114 then Some 13
   else if e =? 116 then Some 9
   else None)%N.

Definition is_high_surrogate (u : N) : bool := ((55296 <=? u) && (u <=? 56319))%N.
Definition is_low_surrogate (u : N) : bool := ((56320 <=? u) && (u <=? 57343))%N.
Definition join_surrogates (u u2 : N) : N :=
  (65536 + N.lor (N.shiftl (u - 55296) 10) (u2 - 56320))%N.

Definition push {A} (c : char) (o : outcome (str * A)) : outcome (str * A) :=
  match o with
  | Got (s, r) => Got (c :: s, r)
  | Bad => Bad
  | Starved => Starved
  end.

Fixpoint scanstring (fuel : nat) (s : str) : outcome (str * str) :=
  match fuel with
  | O => Starved
  | S n =>
      match s with
      | [] => Bad
      | c :: t =>
          if (c =? 34)%N then Got ([], t)
          else if (c =? 92)%N then
            match t with
            | [] => Bad
            | e :: t1 =>
                if (e =? 117)%N then
                  match decode_uXXXX t1 with
                  | None => Bad
                  | Some (uni, t2) =>
                      match (if is_high_surrogate uni
                             then after_prefix [92; 117]%N t2 else None) with
                      | Some t2' =>
                          match decode_uXXXX t2' with
                          | None => Bad
                          | Some (uni2, t3) =>
                              if is_low_surrogate uni2
                              then push (join_surrogates uni uni2) (scanstring n t3)
                              else push uni (scanstring n t2)
                          end
                      | None => push uni (scanstring n t2)
                      end
                  end
                else
                  match unescape e with
                  | Some ch => push ch (scanstring n t1)
                  | None => Bad
                  end
            end
          else if (c <? 32)%N then Bad
          else push c (scanstring n t)
      end
  end.

(** [scan_once], [JSONArray] and [JSONObject].  As in [json.decoder], the
    two containers take the scanner they call on their items as an
    argument; each is given here as one turn of its loop. *)

Section Steps.

Variable scan_string : str -> outcome (str * str).
Variable scan : str -> outcome (pyval * str).
Variable next_item : str -> list pyval -> outcome (pyval * str).
Variable next_pair : str -> list (str * pyval) -> outcome (pyval * str).

(** One item of an array and what follows it: the closing bracket, or a
    comma and the next item. *)
Definition JSONArray_item (s : str) (values : list pyval)
  : outcome (pyval * str) :=
  match scan s with
  | Got (value, r) =>
      match expect (txt "]") r with
      | Some t => Got (PyList (values ++ [value]), t)
      | None =>
          match expect (txt ",") r with
          | Some t => next_item (skip_ws t) (values ++ [value])
          | None => Bad
          end
      end
  | Bad => Bad
  | Starved => Starved
  end.

(** One pair of an object, from just after the opening quote of its key,
    and what follows it: the closing brace, or a comma and the next key. *)
Definition JSONObject_pair (s : str) (pairs : list (str * pyval))
  : outcome (pyval * str) :=
  match scan_string s with
  | Got (key, r) =>
      match expect (txt ":") r with
      | Some t =>
          match scan (skip_ws t) with
          | Got (value, r1) =>
              match expect (txt "}") r1 with
              | Some t1 =>
                  Got (PyDict (dict_of_pairs (pairs ++ [(key, value)])), t1)
              | None =>
                  match expect (txt ",") r1 with
                  | Some t1 =>
                      match expect [c_quote] t1 with
                      | Some t2 => next_pair t2 (pairs ++ [(key, value)])
                      | None => Bad
                      end
                  | None => Bad
                  end
              end
          | Bad => Bad
          | Starved => Starved
          end
      | None => Bad
      end
  | Bad => Bad
  | Starved => Starved
  end.

Definition scan_constant (s : str) : outcome (pyval * str) :=
  match after_prefix (txt "NaN") s with
  | Some r => Got (PyFloat (parse_float (txt "NaN")), r)
  | None =>
      match after_prefix (txt "Infinity") s with
      | Some r => Got (PyFloat (parse_float (txt "Infinity")), r)
      | None =>
          match after_prefix (txt "-Infinity") s with
          | Some r => Got (PyFloat (parse_float (txt "-Infinity")), r)
          | None => Bad
          end
      end
  end.

Definition scan_literal (s : str) : outcome (pyval * str) :=
  match after_prefix (txt "null") s with
  | Some r => Got (PyNone, r)
  | None =>
      match after_prefix (txt "true") s with
      | Some r => Got (PyBool true, r)
      | None =>
          match after_prefix (txt "false") s with
          | Some r => Got (PyBool false, r)
          | None =>
              match match_number s with
              | Some vr => Got vr
              | None => scan_constant s
              end
          end
      end
  end.

Definition scan_value (s : str) : outcome (pyval * str) :=
  match after_prefix [c_quote] s with
  | Some t =>
      match scan_string t with
      | Got (x, r) => Got (PyStr x, r)
      | Bad => Bad
      | Starved => Starved
      end
  | None =>
      match after_prefix (txt "{") s with
      | Some t =>
          match expect (txt "}") t with
          | Some t1 => Got (PyDict [], t1)
          | None =>
              match expect [c_quote] t with
              | Some t1 => next_pair t1 []
              | None => Bad
              end
          end
      | None =>
          match after_prefix (txt "[") s with
          | Some t =>
              match expect (txt "]") t with
              | Some t1 => Got (PyList [], t1)
              | None => next_item (skip_ws t) []
              end
          | None => scan_literal s
          end
      end
  end.

End Steps.

Fixpoint scan_once (fuel : nat) (s : str) : outcome (pyval * str) :=
  match fuel with
  | O => Starved
  | S n => scan_value (scanstring n) (array_loop n) (object_loop n) s
  end
with array_loop (fuel : nat) (s : str) (values : list pyval)
  : outcome (pyval * str) :=
  match fuel with
  | O => Starved
  | S n => JSONArray_item (scan_once n) (array_loop n) s values
  end
with object_loop (fuel : nat) (s : str) (pairs : list (str * pyval))
  : outcome (pyval * str) :=
  match fuel with
  | O => Starved
  | S n => JSONObject_pair (scanstring n) (scan_once n) (object_loop n) s pairs
  end.

(** [JSONDecoder.decode]: leading blanks, one value, trailing blanks, and
    nothing else ("Extra data"). *)
Definition decode (fuel : nat) (s : str) : outcome pyval :=
  match scan_once fuel (skip_ws s) with
  | Got (v, r) =>
      match skip_ws r with
      | [] => Got v
      | _ :: _ => Bad
      end
  | Bad => Bad
  | Starved => Starved
  end.

(** [json.loads(s)] for a [str]; [None] stands for [JSONDecodeError].  A
    value and each turn of a container's loop take one unit of the budget,
    so twice the length of the text is enough. *)
Definition json_loads (s : str) : option pyval :=
  match decode (S (2 * length s)) s with
  | Got v => Some v
  | Bad => None
  | Starved => None
  end.

(** ** The data models of [main.py] *)

Record LogAnalysisRequest := {
  logs : str;
  environment : option str;
  question : option str
}.

Record Detection := {
  title : str;
  description : str;
  severity : str;
  indicators : list str
}.

Record LogAnalysisResponse := {
  overall_risk_score : float;
  summary : str;
  detections : list Detection;
  recommended_actions : list str;
  queries_to_run : list str
}.

(** Constructing a [BaseModel] validates every field.  What pydantic does
    with a value of another type than the field's depends on its version, so
    the validators of [str] and [float] fields are an interface here; the
    properties below assume of them only that a value of the field's own
    type is kept as it is and, for the score, that an [int] is converted as
    [float_of_int] has it.  A [List[str]] field takes a list, item by
    item. *)

(** [str(z)] for an [int]: its decimal literal. *)
Definition str_of_int (z : Z) : str :=
  txt (NilZero.string_of_int (Z.to_int z)).

(** The integer nearest to [z] among those with at most 53 significant
    bits, a tie going to the even mantissa: the rounding of
    [PyLong_AsDouble]. *)
Definition round_to_53_bits (z : Z) : Z :=
  let n := Z.abs z in
  let shift := (Z.log2 n + 1 - 53)%Z in
  if (shift <=? 0)%Z then z
  else
    let q := Z.shiftr n shift in
    let rest := Z.land n (Z.ones shift) in
    let half := Z.shiftl 1 (shift - 1) in
    let q' := if (half <? rest)%Z || ((rest =? half)%Z && Z.odd q)
              then (q + 1)%Z else q in
    (Z.sgn z * Z.shiftl q' shift)%Z.

(** [float(z)] for an [int], which is what a [float] field makes of one:
    the float nearest to [z].  That float is an integer, so it is the one
    [float] reads from the literal of the rounded integer; [None] stands
    for [OverflowError], past the largest float. *)
Definition float_of_int (z : Z) : option float :=
  let n := round_to_53_bits z in
  if (Z.abs n <? 2 ^ 1024)%Z then Some (parse_float (str_of_int n))
  else None.

Class Pydantic := {
  validate_str : pyval -> option str;
  validate_float : pyval -> option float
}.

Context {P : Pydantic}.

Fixpoint validate_items (l : list pyval) : option (list str) :=
  match l with
  | [] => Some []
  | v :: t =>
      match validate_str v, validate_items t with
      | Some x, Some xs => Some (x :: xs)
      | _, _ => None
      end
  end.

Definition validate_list_str (v : pyval) : option (list str) :=
  match v with
  | PyList l => validate_items l
  | _ => None
  end.

Definition new_Detection (title description severity indicators : pyval)
  : res Detection :=
  match validate_str title, validate_str description,
        validate_str severity, validate_list_str indicators with
  | Some t, Some d, Some s, Some i =>
      Ok {| title := t; description := d; severity := s; indicators := i |}
  | _, _, _, _ => Raise ValidationError
  end.

Definition new_LogAnalysisResponse
  (overall_risk_score summary : pyval) (detections : list Detection)
  (recommended_actions queries_to_run : pyval) : res LogAnalysisResponse :=
  match validate_float overall_risk_score, validate_str summary,
        validate_list_str recommended_actions,
        validate_list_str queries_to_run with
  | Some r, Some s, Some a, Some q =>
      Ok {| overall_risk_score := r; summary := s; detections := detections;
            recommended_actions := a; queries_to_run := q |}
  | _, _, _, _ => Raise ValidationError
  end.

(** ** Operations on decoded values *)

(** [v.get(k, default)]: only a [dict] has the method. *)
Definition py_get (v : pyval) (k : str) (default : pyval) : res pyval :=
  match v with
  | PyDict d => Ok (get_default d k default)
  | _ => Raise AttributeError
  end.

(** [for d in v]: a list gives its items, a dict its keys, a string its
    characters; nothing else can be iterated. *)
Definition py_iter (v : pyval) : res (list pyval) :=
  match v with
  | PyList l => Ok l
  | PyDict d => Ok (map (fun kv => PyStr (fst kv)) d)
  | PyStr s => Ok (map (fun c => PyStr [c]) s)
  | _ => Raise TypeError
  end.

(** [v[k]] for a string key [k]. *)
Definition py_getitem (v : pyval) (k : str) : res pyval :=
  match v with
  | PyDict d => of_option KeyError (dict_get d k)
  | _ => Raise TypeError
  end.

(** [v[0]] *)
Definition py_first (v : pyval) : res pyval :=
  match v with
  | PyList l => of_option IndexError (hd_error l)
  | PyStr s => of_option IndexError (option_map (fun c => PyStr [c]) (hd_error s))
  | PyDict _ => Raise KeyError
  | _ => Raise TypeError
  end.

(** [a or b] on an optional string: [None] and the empty string are falsy. *)
Definition py_or (a : option str) (b : str) : str :=
  match a with
  | None => b
  | Some [] => b
  | Some s => s
  end.

(** ** The outside world

    The process environment, the external service as the HTTP client sees
    it, and the trace of what a request did: its outbound calls and what it
    printed. *)

Record Post := {
  url : str;
  json_body : pyval;
  headers : list (str * str)
}.

Record Response := {
  status_code : Z;
  text : str;
  json : res pyval
}.

(** The two settings read from the environment, and [client.post(...)]:
    a response, or one of the client's own errors (no connection, no answer
    within the timeout). *)
Class World := {
  AGI_API_KEY : option str;
  AGI_BASE_URL : str;
  client_post : Post -> res Response
}.

Context {W : World}.

Inductive printed :=
| PStr (s : str)
| PInt (z : Z)
| PVal (v : pyval).

Inductive event :=
| Posted (p : Post)
| Printed (args : list printed).

(** [Response.raise_for_status] raises [HTTPStatusError] unless the status
    is a 2xx one. *)
Definition is_success (r : Response) : bool :=
  ((200 <=? status_code r) && (status_code r <=? 299))%Z.

(** [not AGI_API_KEY] *)
Definition key_missing : bool :=
  match AGI_API_KEY with
  | None => true
  | Some [] => true
  | Some (_ :: _) => false
  end.

Definition key_message : str :=
  txt "AGI_API_KEY is not configured on the server. Set it in backend/.env".

(** ** [call_agi_agent] *)

Definition request_payload (system_prompt user_prompt : str) : pyval :=
  PyDict
    [ (txt "model", PyStr (txt "agi-latest"));
      (txt "messages",
       PyList
         [ PyDict [ (txt "role", PyStr (txt "system"));
                    (txt "content", PyStr system_prompt) ];
           PyDict [ (txt "role", PyStr (txt "user"));
                    (txt "content", PyStr user_prompt) ] ]);
      (txt "temperature", PyFloat (parse_float (txt "0.2"))) ].

(** The key as an f-string prints it. *)
Definition key_text : str :=
  match AGI_API_KEY with
  | Some key => key
  | None => txt "None"
  end.

Definition request_headers : list (str * str) :=
  [ (txt "Authorization", txt "Bearer " ++ key_text);
    (txt "Content-Type", txt "application/json") ].

(** The one outbound call of a request. *)
Definition agi_post (system_prompt user_prompt : str) : Post :=
  {| url := AGI_BASE_URL ++ txt "/v1/chat/completions";
     json_body := request_payload system_prompt user_prompt;
     headers := request_headers |}.

(** What the [except httpx.HTTPStatusError] branch prints. *)
Definition debug_prints (resp : Response) (payload : pyval) : list event :=
  [ Printed [PStr (txt "=== AGI API DEBUG ===")];
    Printed [PStr (txt "Status code:"); PInt (status_code resp)];
    Printed [PStr (txt "Response body:"); PStr (text resp)];
    Printed [PStr (txt "Request payload:"); PVal payload];
    Printed [PStr (txt "=====================")] ].

Definition call_agi_agent (system_prompt user_prompt : str)
  (trace : list event) : res pyval * list event :=
  if key_missing then
    (Raise (HTTPException 500 key_message), trace)
  else
    let payload := request_payload system_prompt user_prompt in
    let post := agi_post system_prompt user_prompt in
    let trace := trace ++ [Posted post] in
    match client_post post with
    | Raise e => (Raise e, trace)
    | Ok resp =>
        if is_success resp then
          (data <- json resp ;;
           choices <- py_getitem data (txt "choices") ;;
           choice <- py_first choices ;;
           message <- py_getitem choice (txt "message") ;;
           py_getitem message (txt "content"),
           trace)
        else
          (Raise (HTTPException (status_code resp)
                    (txt "AGI API error: " ++ text resp)),
           trace ++ debug_prints resp payload)
    end.

(** ** [analyze_logs] *)

Definition quoted (s : string) : str := c_quote :: txt s ++ [c_quote].

Definition system_prompt : str :=
  txt "You are a senior security analyst and threat hunter assisting a SOC team. "
  ++ txt "Given raw security logs, your job is to:" ++ [c_newline]
  ++ txt "- detect suspicious or malicious activity and group it into 'detections'" ++ [c_newline]
  ++ txt "- assign each detection a severity: Low / Medium / High / Critical" ++ [c_newline]
  ++ txt "- compute an overall risk score from 0 to 100 for the entire log batch" ++ [c_newline]
  ++ txt "- describe the situation in a concise summary (3" ++ [8211%N]
  ++ txt "5 sentences)" ++ [c_newline]
  ++ txt "- propose concrete recommended_actions for the security team" ++ [c_newline]
  ++ txt "- output follow-up queries_to_run in a SIEM (SPL, KQL, SQL-like)."
  ++ [c_newline; c_newline]
  ++ txt "Return ONLY valid JSON with this exact schema:" ++ [c_newline]
  ++ txt "{" ++ [c_newline]
  ++ txt "  " ++ quoted "overall_risk_score" ++ txt ": float," ++ [c_newline]
  ++ txt "  " ++ quoted "summary" ++ txt ": str," ++ [c_newline]
  ++ txt "  " ++ quoted "detections" ++ txt ": [" ++ [c_newline]
  ++ txt "    {" ++ quoted "title" ++ txt ": str, " ++ quoted "description"
  ++ txt ": str, " ++ quoted "severity" ++ txt ": str, " ++ quoted "indicators"
  ++ txt ": [str, ...]}," ++ [c_newline]
  ++ txt "  ]," ++ [c_newline]
  ++ txt "  " ++ quoted "recommended_actions" ++ txt ": [str, ...]," ++ [c_newline]
  ++ txt "  " ++ quoted "queries_to_run" ++ txt ": [str, ...]" ++ [c_newline]
  ++ txt "}".

Definition user_prompt (req : LogAnalysisRequest) : str :=
  [c_newline] ++ txt "    ENVIRONMENT:" ++ [c_newline]
  ++ txt "    " ++ py_or (environment req) (txt "Not specified")
  ++ [c_newline; c_newline]
  ++ txt "    ANALYST QUESTION / FOCUS:" ++ [c_newline]
  ++ txt "    "
  ++ py_or (question req) (txt "General threat hunting and incident triage.")
  ++ [c_newline; c_newline]
  ++ txt "    LOGS:" ++ [c_newline]
  ++ txt "    " ++ logs req ++ [c_newline]
  ++ txt "    ".

(** The fallback transform of the [except] branch. *)
Definition cleanup (raw_response : str) : str :=
  let cleaned := py_strip_chars [c_backtick] (py_strip raw_response) in
  py_strip (replace_first (txt "json") [] cleaned).

(** The [try]/[except json.JSONDecodeError] block, on a string. *)
Definition recover (raw_response : str) : res pyval :=
  match json_loads raw_response with
  | Some result => Ok result
  | None => of_option JSONDecodeError (json_loads (cleanup raw_response))
  end.

(** The same block on whatever [call_agi_agent] returned: [json.loads]
    takes text only. *)
Definition parse_reply (raw_response : pyval) : res pyval :=
  match raw_response with
  | PyStr raw => recover raw
  | _ => Raise TypeError
  end.

(** One item of the [detections] comprehension. *)
Definition detection_of (d : pyval) : res Detection :=
  t <- py_get d (txt "title") (PyStr []) ;;
  ds <- py_get d (txt "description") (PyStr []) ;;
  sv <- py_get d (txt "severity") (PyStr (txt "Medium")) ;;
  i <- py_get d (txt "indicators") (PyList []) ;;
  new_Detection t ds sv i.

(** Everything after the parse: the comprehension, then the response. *)
Definition build_response (result : pyval) : res LogAnalysisResponse :=
  ds <- py_get result (txt "detections") (PyList []) ;;
  items <- py_iter ds ;;
  detections <- mapM detection_of items ;;
  score <- py_get result (txt "overall_risk_score")
             (PyFloat (parse_float (txt "0.0"))) ;;
  summary <- py_get result (txt "summary") (PyStr []) ;;
  actions <- py_get result (txt "recommended_actions") (PyList []) ;;
  queries <- py_get result (txt "queries_to_run") (PyList []) ;;
  new_LogAnalysisResponse score summary detections actions queries.

Definition analyze_logs (req : LogAnalysisRequest) (trace : list event)
  : res LogAnalysisResponse * list event :=
  match call_agi_agent system_prompt (user_prompt req) trace with
  | (Ok raw_response, trace') =>
      (result <- parse_reply raw_response ;; build_response result, trace')
  | (Raise e, trace') => (Raise e, trace')
  end.

(** ** A payload that matches the schema

    The decoded object [o] carries every field of the response [r], each
    with a value of the field's own type. *)




(** A field read with [get]: the default when the key is absent, what the
    field's validation makes of the key's value otherwise. *)
Definition field_is {A} (validate : pyval -> option A) (default : A)
  (o : list (str * pyval)) (k : str) (x : A) : Prop :=
  match dict_get o k with
  | Some v => validate v = Some x
  | None => x = default
  end.

(** ** Reading a trace and a text *)

Definition is_post (e : event) : bool :=
  match e with
  | Posted _ => true
  | Printed _ => false
  end.

Definition is_print (e : event) : bool :=
  match e with
  | Posted _ => false
  | Printed _ => true
  end.

(** [p in s] *)
Fixpoint contains (p s : str) : bool :=
  match after_prefix p s with
  | Some _ => true
  | None =>
      match s with
      | [] => false
      | _ :: t => contains p t
      end
  end.

(** The characters a JSON value can start with: the quote of a string, the
    brace of an object, the bracket of an array, the first letter of
    [null], [true], [false], [NaN] and [Infinity], a minus sign, a digit. *)
Definition opens_value (c : char) : bool :=
  existsb (N.eqb c) (c_quote :: txt "{[ntfNI-") || is_digit c.

(** The five keys [analyze_logs] reads in the decoded payload, and the four
    it reads in an entry of [detections]. *)
Definition response_keys : list str :=
  [ txt "detections"; txt "overall_risk_score"; txt "summary";
    txt "recommended_actions"; txt "queries_to_run" ].

Definition detection_keys : list str :=
  [ txt "title"; txt "description"; txt "severity"; txt "indicators" ].


End Model.

(** * A worked instance

    The end-to-end scenario of the specification, with a stubbed external
    service.  For the sake of evaluation a float is stood for by the
    literal it was read from.  The field validators take a value of the
    field's own type and, for a [float] field, an [int], which is
    converted.  What pydantic coerces besides (a [bool], a numeric string)
    differs between its versions and is refused here. *)

Definition sample_floats : Floats :=
  {| float := str; parse_float := fun s => s |}.

Section Sample.

#[local] Existing Instance sample_floats.

Definition strict_str (v : @pyval sample_floats) : option str :=
  match v with
  | PyStr s => Some s
  | _ => None
  end.

Definition strict_float (v : @pyval sample_floats) : option str :=
  match v with
  | PyFloat x => Some x
  | PyInt z => float_of_int z
  | _ => None
  end.

Definition strict : @Pydantic sample_floats :=
  {| validate_str := strict_str; validate_float := strict_float |}.

Definition sample_request : LogAnalysisRequest :=
  {| logs := txt "2024-01-01 failed login x5 from 10.0.0.5";
     environment := Some (txt "AWS");
     question := Some (txt "brute force?") |}.

(** The payload of the stubbed reply, as text. *)
Definition sample_payload : str :=
  txt "{" ++ quoted "overall_risk_score" ++ txt ": 72.5, "
  ++ quoted "summary" ++ txt ": " ++ quoted "Five failed logins from one address"
  ++ txt ", " ++ quoted "detections" ++ txt ": [{"
  ++ quoted "title" ++ txt ": " ++ quoted "Brute force" ++ txt ", "
  ++ quoted "description" ++ txt ": " ++ quoted "Repeated failed logins"
  ++ txt ", " ++ quoted "severity" ++ txt ": " ++ quoted "High" ++ txt ", "
  ++ quoted "indicators" ++ txt ": [" ++ quoted "10.0.0.5" ++ txt "]}], "
  ++ quoted "recommended_actions" ++ txt ": [" ++ quoted "Block 10.0.0.5"
  ++ txt "], " ++ quoted "queries_to_run" ++ txt ": ["
  ++ quoted "index=auth action=failure" ++ txt "]}".

(** The same payload, decoded. *)
Definition sample_object : list (str * @pyval sample_floats) :=
  [ (txt "overall_risk_score", PyFloat (txt "72.5"));
    (txt "summary", PyStr (txt "Five failed logins from one address"));
    (txt "detections",
     PyList
       [ PyDict
           [ (txt "title", PyStr (txt "Brute force"));
             (txt "description", PyStr (txt "Repeated failed logins"));
             (txt "severity", PyStr (txt "High"));
             (txt "indicators", PyList [PyStr (txt "10.0.0.5")]) ] ]);
    (txt "recommended_actions", PyList [PyStr (txt "Block 10.0.0.5")]);
    (txt "queries_to_run", PyList [PyStr (txt "index=auth action=failure")]) ].


(** A JSON string literal for a text with no control character. *)
Definition json_string (s : str) : str :=
  c_quote
  :: flat_map (fun c => if ((c =? c_quote) || (c =? c_backslash))%N
                        then [c_backslash; c] else [c]) s
  ++ [c_quote].

(** A chat-completion reply whose first choice carries [content]. *)
Definition completion_text (content : str) : str :=
  txt "{" ++ quoted "choices" ++ txt ": [{" ++ quoted "message" ++ txt ": {"
  ++ quoted "role" ++ txt ": " ++ quoted "assistant" ++ txt ", "
  ++ quoted "content" ++ txt ": " ++ json_string content ++ txt "}}]}".

Definition reply (status : Z) (body : str) : @Response sample_floats :=
  {| status_code := status;
     text := body;
     json := of_option JSONDecodeError (json_loads body) |}.

Definition sample_key : option str := Some (txt "secret").

(** Stubs of the external service, with and without the credential. *)
Definition answering (key : option str) (content : str) : @World sample_floats :=
  {| AGI_API_KEY := key;
     AGI_BASE_URL := txt "https://api.agi.tech";
     client_post := fun _ => Ok (reply 200 (completion_text content)) |}.

Definition refusing (status : Z) (body : str) : @World sample_floats :=
  {| AGI_API_KEY := sample_key;
     AGI_BASE_URL := txt "https://api.agi.tech";
     client_post := fun _ => Ok (reply status body) |}.

Definition sample_analyze (world : @World sample_floats)
  : res (@LogAnalysisResponse sample_floats) * list (@event sample_floats) :=
  @analyze_logs sample_floats strict world sample_request [].

Definition sample_post (world : @World sample_floats) : @Post sample_floats :=
  @agi_post sample_floats world system_prompt (user_prompt sample_request).

(** A fenced reply, as chat models tend to write them. *)
Definition sample_document : str := [c_newline] ++ sample_payload ++ [c_newline].

Definition sample_fenced : str :=
  repeat c_backtick 3 ++ txt "json" ++ sample_document ++ repeat c_backtick 3.

Definition sample_prose : str := txt "Sorry, I cannot analyse these logs.".

Definition quiet_object : list (str * @pyval sample_floats) :=
  [ (txt "summary", PyStr (txt "Nothing found"));
    (txt "overall_risk_score", PyFloat (txt "3.5")) ].

Definition bare_entry : list (str * @pyval sample_floats) :=
  [ (txt "title", PyStr (txt "Brute force"));
    (txt "description", PyStr (txt "Repeated failed logins")) ].

Definition untitled_entry : list (str * @pyval sample_floats) :=
  [ (txt "severity", PyStr (txt "Low"));
    (txt "indicators", PyList [PyStr (txt "10.0.0.5")]) ].

Definition listing (entry : list (str * @pyval sample_floats))
  : list (str * @pyval sample_floats) :=
  [ (txt "detections", PyList [PyDict entry]) ].

Definition sample_build (o : list (str * @pyval sample_floats))
  : res (@LogAnalysisResponse sample_floats) :=
  @build_response sample_floats strict (PyDict o).

Definition sample_loads (s : str) : option (@pyval sample_floats) :=
  json_loads s.

(** More stubs: a service that cannot be reached, and one that answers
    with a given response. *)
Definition unreachable : @World sample_floats :=
  {| AGI_API_KEY := sample_key;
     AGI_BASE_URL := txt "https://api.agi.tech";
     client_post := fun _ => Raise TransportError |}.

Definition serving (resp : @Response sample_floats) : @World sample_floats :=
  {| AGI_API_KEY := sample_key;
     AGI_BASE_URL := txt "https://api.agi.tech";
     client_post := fun _ => Ok resp |}.

(** A reply with two choices, and one with none. *)
Definition two_choices : str :=
  txt "{" ++ quoted "id" ++ txt ": 7, " ++ quoted "choices" ++ txt ": [{"
  ++ quoted "index" ++ txt ": 0, " ++ quoted "message" ++ txt ": {"
  ++ quoted "content" ++ txt ": " ++ quoted "first" ++ txt "}}, {"
  ++ quoted "message" ++ txt ": {" ++ quoted "content" ++ txt ": "
  ++ quoted "second" ++ txt "}}]}".

Definition no_choices : str :=
  txt "{" ++ quoted "choices" ++ txt ": []}".

(** A reply whose content is [null]. *)
Definition null_content : str :=
  txt "{" ++ quoted "choices" ++ txt ": [{" ++ quoted "message" ++ txt ": {"
  ++ quoted "content" ++ txt ": null}}]}".

(** A document that holds the word of the tag. *)
Definition format_document : str :=
  txt "{" ++ quoted "format" ++ txt ": " ++ quoted "json" ++ txt "}".

Definition sample_recover (s : str) : res (@pyval sample_floats) :=
  recover s.

End Sample.

(** * Properties *)

Section Properties.

Context {F : Floats} {P : Pydantic} {W : World}.

(** ** Text *)

Lemma lstrip_length (p : char -> bool) (s : str) :
  length (lstrip p s) <= length s.
Proof.
  induction s as [|c t IH]; simpl; [lia|].
  destruct (p c); simpl; lia.
Qed.

Lemma skip_ws_length (s : str) : length (skip_ws s) <= length s.
Proof. apply lstrip_length. Qed.

Lemma after_prefix_cons (x : char) (p : str) (y : char) (s : str) :
  after_prefix (x :: p) (y :: s) = if N.eqb x y then after_prefix p s else None.
Proof. reflexivity. Qed.

Lemma after_prefix_split (p s r : str) :
  after_prefix p s = Some r -> s = p ++ r.
Proof.
  revert s; induction p as [|x p IH]; intros [|y s];
    try (intros H; inversion H; reflexivity).
  rewrite after_prefix_cons.
  destruct (N.eqb_spec x y); [subst|discriminate].
  intros H; rewrite (IH _ H); reflexivity.
Qed.

Lemma after_prefix_length (p s r : str) :
  after_prefix p s = Some r -> length s = length p + length r.
Proof.
  intros H; rewrite (after_prefix_split _ _ _ H), length_app; reflexivity.
Qed.

Lemma span_digits_split (s d r : str) :
  span_digits s = (d, r) -> s = d ++ r.
Proof.
  revert d r; induction s as [|c t IH]; simpl; intros d r.
  - intros H; inversion H; reflexivity.
  - destruct (is_digit c).
    + destruct (span_digits t) as [d' r'] eqn:E.
      intros H; inversion H; subst. simpl. rewrite (IH _ _ eq_refl); reflexivity.
    + intros H; inversion H; reflexivity.
Qed.

Lemma span_digits_length (s d r : str) :
  span_digits s = (d, r) -> length s = length d + length r.
Proof.
  intros H; rewrite (span_digits_split _ _ _ H), length_app; reflexivity.
Qed.

(** ** The decoder consumes what it reads *)

Definition shrinks {A} (f : str -> outcome (A * str)) : Prop :=
  forall s a r, f s = Got (a, r) -> length r < length s.

Ltac crack :=
  repeat match goal with
  | H : Got _ = Got _ |- _ => inversion H; subst; clear H
  | H : Some _ = Some _ |- _ => inversion H; subst; clear H
  | H : (_, _) = (_, _) |- _ => inversion H; subst; clear H
  | H : Bad = Got _ |- _ => discriminate H
  | H : Starved = Got _ |- _ => discriminate H
  | H : None = Some _ |- _ => discriminate H
  | H : context [match ?x with _ => _ end] |- _ =>
      lazymatch x with
      | context [match _ with _ => _ end] => fail
      | _ => destruct x eqn:?
      end
  end.

Lemma expect_length (p s r : str) :
  expect p s = Some r -> length p + length r <= length s.
Proof.
  unfold expect; intros H; apply after_prefix_length in H.
  pose proof (skip_ws_length s); lia.
Qed.

Ltac lengths :=
  repeat match goal with
  | H : expect _ _ = Some _ |- _ => apply expect_length in H
  | H : after_prefix _ _ = Some _ |- _ => apply after_prefix_length in H
  | H : span_digits _ = (_, _) |- _ => apply span_digits_length in H
  | H : skip_ws ?s = _ |- _ =>
      let L := fresh "L" in
      pose proof (skip_ws_length s) as L; rewrite H in L; clear H
  | H : context [length (skip_ws ?s)] |- _ =>
      lazymatch goal with
      | _ : length (skip_ws s) <= length s |- _ => fail
      | _ => pose proof (skip_ws_length s)
      end
  | |- context [length (skip_ws ?s)] =>
      lazymatch goal with
      | _ : length (skip_ws s) <= length s |- _ => fail
      | _ => pose proof (skip_ws_length s)
      end
  end;
  simpl in *; try lia.

Lemma prepend_some (p : str) (o : option (str * str)) (i r : str) :
  prepend p o = Some (i, r) -> exists d, o = Some (d, r).
Proof. destruct o as [[d r']|]; simpl; intros H; inversion H; eauto. Qed.

Lemma match_digits_shrinks (s i r : str) :
  match_digits s = Some (i, r) -> length r < length s.
Proof. unfold match_digits; intros H; crack; lengths. Qed.

Lemma match_unsigned_shrinks (s i r : str) :
  match_unsigned s = Some (i, r) -> length r < length s.
Proof. unfold match_unsigned; intros H; crack; lengths. Qed.

Ltac unprepend :=
  repeat match goal with
  | H : prepend _ _ = Some _ |- _ => apply prepend_some in H; destruct H as [? H]
  | H : match_unsigned _ = Some _ |- _ => apply match_unsigned_shrinks in H
  | H : match_digits _ = Some _ |- _ => apply match_digits_shrinks in H
  end.

Lemma match_integer_shrinks (s i r : str) :
  match_integer s = Some (i, r) -> length r < length s.
Proof. unfold match_integer; intros H; crack; unprepend; lengths. Qed.

Lemma match_frac_shrinks (s i r : str) :
  match_frac s = Some (i, r) -> length r < length s.
Proof. unfold match_frac; intros H; crack; unprepend; lengths. Qed.

Lemma match_exp_shrinks (s i r : str) :
  match_exp s = Some (i, r) -> length r < length s.
Proof. unfold match_exp; intros H; crack; unprepend; lengths. Qed.

Lemma match_number_shrinks (s : str) (v : pyval) (r : str) :
  match_number s = Some (v, r) -> length r < length s.
Proof.
  unfold match_number; intros H; crack;
    repeat match goal with
    | H : match_integer _ = Some _ |- _ => apply match_integer_shrinks in H
    | H : match_frac _ = Some _ |- _ => apply match_frac_shrinks in H
    | H : match_exp _ = Some _ |- _ => apply match_exp_shrinks in H
    end; lia.
Qed.

Lemma hex_digit_length (acc : N) (s : str) (u : N) (r : str) :
  hex_digit acc s = Some (u, r) -> length s = 1 + length r.
Proof. unfold hex_digit; intros H; crack; reflexivity. Qed.

Lemma decode_uXXXX_length (s : str) (u : N) (r : str) :
  decode_uXXXX s = Some (u, r) -> length s = 4 + length r.
Proof.
  unfold decode_uXXXX; intros H; crack;
    repeat match goal with
    | H : hex_digit _ _ = Some _ |- _ => apply hex_digit_length in H
    end; lia.
Qed.

Lemma push_got {A} (c : char) (o : outcome (str * A)) (x : str) (r : A) :
  push c o = Got (x, r) -> exists x', o = Got (x', r) /\ x = c :: x'.
Proof.
  destruct o as [[x' r']| |]; simpl; intros H; inversion H; subst; eauto.
Qed.

Lemma scanstring_shrinks (n : nat) : shrinks (scanstring n).
Proof.
  induction n as [|n IH]; intros s a r; simpl; [discriminate|].
  intros H; crack;
    repeat match goal with
    | H : push _ _ = Got _ |- _ =>
        apply push_got in H; destruct H as (? & H & ?); apply IH in H
    | H : decode_uXXXX _ = Some _ |- _ => apply decode_uXXXX_length in H
    end; lengths.
Qed.

Lemma scan_constant_shrinks : shrinks scan_constant.
Proof. intros s a r; unfold scan_constant; intros H; crack; lengths. Qed.

Lemma scan_literal_shrinks : shrinks scan_literal.
Proof.
  intros s a r; unfold scan_literal; intros H; crack;
    try match goal with
    | H : match_number _ = Some _ |- _ => apply match_number_shrinks in H
    | H : scan_constant _ = Got _ |- _ => apply scan_constant_shrinks in H
    end; lengths.
Qed.

Section StepsShrink.

Variable scan_string : str -> outcome (str * str).
Variable scan : str -> outcome (pyval * str).
Variable next_item : str -> list pyval -> outcome (pyval * str).
Variable next_pair : str -> list (str * pyval) -> outcome (pyval * str).
Hypothesis scan_string_shrinks : shrinks scan_string.
Hypothesis scan_shrinks : shrinks scan.
Hypothesis next_item_shrinks : forall vs, shrinks (fun s => next_item s vs).
Hypothesis next_pair_shrinks : forall ps, shrinks (fun s => next_pair s ps).

Ltac inner :=
  repeat match goal with
  | H : scan_string _ = Got _ |- _ => apply scan_string_shrinks in H
  | H : scan _ = Got _ |- _ => apply scan_shrinks in H
  | H : next_item ?s ?vs = Got (?a, ?r) |- _ =>
      apply (next_item_shrinks vs s a r) in H
  | H : next_pair ?s ?ps = Got (?a, ?r) |- _ =>
      apply (next_pair_shrinks ps s a r) in H
  | H : scan_literal _ = Got _ |- _ => apply scan_literal_shrinks in H
  end.

Lemma JSONArray_item_shrinks (vs : list pyval) :
  shrinks (fun s => JSONArray_item scan next_item s vs).
Proof. intros s a r; unfold JSONArray_item; intros H; crack; inner; lengths. Qed.

Lemma JSONObject_pair_shrinks (ps : list (str * pyval)) :
  shrinks (fun s => JSONObject_pair scan_string scan next_pair s ps).
Proof. intros s a r; unfold JSONObject_pair; intros H; crack; inner; lengths. Qed.

Lemma scan_value_shrinks :
  shrinks (scan_value scan_string next_item next_pair).
Proof. intros s a r; unfold scan_value; intros H; crack; inner; lengths. Qed.

End StepsShrink.

Lemma scan_once_shrinks (n : nat) :
  shrinks (scan_once n)
  /\ (forall vs, shrinks (fun s => array_loop n s vs))
  /\ (forall ps, shrinks (fun s => object_loop n s ps)).
Proof.
  induction n as [|n (IH1 & IH2 & IH3)].
  - repeat split; unfold shrinks; simpl; intros; discriminate.
  - repeat split; unfold shrinks;
      [intros s a r | intros vs s a r | intros ps s a r]; simpl.
    + apply scan_value_shrinks; auto using scanstring_shrinks.
    + apply JSONArray_item_shrinks; auto.
    + apply JSONObject_pair_shrinks; auto using scanstring_shrinks.
Qed.

(** ** The recursion budget

    A budget larger than twice the text is never exhausted, and past that
    bound the result does not depend on it.  A loop of a container spends
    one unit before it scans its item: that is its [slack]. *)

Definition fed {A} (slack k : nat) (f : str -> outcome A) : Prop :=
  forall s, 2 * length s + slack < k -> f s <> Starved.

Definition agree {A} (slack k : nat) (f g : str -> outcome A) : Prop :=
  forall s, 2 * length s + slack < k -> f s = g s.

Lemma push_starved {A} (c : char) (o : outcome (str * A)) :
  push c o = Starved -> o = Starved.
Proof. destruct o as [[x r]| |]; simpl; congruence. Qed.

Ltac shrink_facts :=
  repeat match goal with
  | H : scanstring _ _ = Got _ |- _ => apply scanstring_shrinks in H
  | H : decode_uXXXX _ = Some _ |- _ => apply decode_uXXXX_length in H
  end.

Lemma scanstring_fed (n : nat) (s : str) :
  length s < n -> scanstring n s <> Starved.
Proof.
  revert s; induction n as [|n IH]; intros s Hs; [inversion Hs|].
  simpl; intros H; crack; try discriminate;
    apply push_starved in H; revert H; apply IH; shrink_facts; lengths.
Qed.

Lemma scanstring_agree (n m : nat) (s : str) :
  length s < n -> length s < m -> scanstring n s = scanstring m s.
Proof.
  revert m s; induction n as [|n IH]; intros [|m] s Hn Hm;
    try solve [inversion Hn | inversion Hm].
  simpl.
  repeat match goal with
  | |- ?x = ?x => reflexivity
  | |- push _ _ = push _ _ => f_equal; apply IH; shrink_facts; lengths
  | |- context [match ?x with _ => _ end] =>
      lazymatch x with
      | context [match _ with _ => _ end] => fail
      | _ => destruct x eqn:?
      end
  end.
Qed.

Section StepsBudget.

Variable k : nat.
Variables scan_string scan_string' : str -> outcome (str * str).
Variables scan scan' : str -> outcome (pyval * str).
Variables next_item next_item' : str -> list pyval -> outcome (pyval * str).
Variables next_pair next_pair'
  : str -> list (str * pyval) -> outcome (pyval * str).
Hypothesis scan_string_shrinks : shrinks scan_string.
Hypothesis scan_shrinks : shrinks scan.

Ltac inner :=
  repeat match goal with
  | H : scan_string _ = Got _ |- _ => apply scan_string_shrinks in H
  | H : scan _ = Got _ |- _ => apply scan_shrinks in H
  end.

Section Fed.

Hypothesis scan_string_fed : fed 0 k scan_string.
Hypothesis scan_fed : fed 0 k scan.
Hypothesis next_item_fed : forall vs, fed 1 k (fun s => next_item s vs).
Hypothesis next_pair_fed : forall ps, fed 1 k (fun s => next_pair s ps).

Ltac starve :=
  crack; try discriminate;
  (match goal with
   | H : scan_string ?s = Starved |- _ => apply (scan_string_fed s) in H
   | H : scan ?s = Starved |- _ => apply (scan_fed s) in H
   | H : next_item ?s ?vs = Starved |- _ => apply (next_item_fed vs s) in H
   | H : next_pair ?s ?ps = Starved |- _ => apply (next_pair_fed ps s) in H
   end; [contradiction | inner; lengths]).

Lemma scan_constant_fed (s : str) : scan_constant s <> Starved.
Proof. unfold scan_constant; intros H; crack; discriminate. Qed.

Lemma scan_literal_fed (s : str) : scan_literal s <> Starved.
Proof.
  unfold scan_literal; intros H; crack; try discriminate.
  revert H; apply scan_constant_fed.
Qed.

Lemma JSONArray_item_fed (vs : list pyval) :
  fed 1 (S k) (fun s => JSONArray_item scan next_item s vs).
Proof. intros s Hs; unfold JSONArray_item; intros H; starve. Qed.

Lemma JSONObject_pair_fed (ps : list (str * pyval)) :
  fed 1 (S k) (fun s => JSONObject_pair scan_string scan next_pair s ps).
Proof. intros s Hs; unfold JSONObject_pair; intros H; starve. Qed.

Lemma scan_value_fed :
  fed 0 (S k) (scan_value scan_string next_item next_pair).
Proof.
  intros s Hs; unfold scan_value; intros H.
  crack; try discriminate; try (revert H; apply scan_literal_fed); starve.
Qed.

End Fed.

Section Agree.

Hypothesis scan_string_agree : agree 0 k scan_string scan_string'.
Hypothesis scan_agree : agree 0 k scan scan'.
Hypothesis next_item_agree :
  forall vs, agree 1 k (fun s => next_item s vs) (fun s => next_item' s vs).
Hypothesis next_pair_agree :
  forall ps, agree 1 k (fun s => next_pair s ps) (fun s => next_pair' s ps).

Ltac same :=
  repeat match goal with
  | |- ?x = ?x => reflexivity
  | |- context [scan_string' ?s] =>
      rewrite <- (scan_string_agree s) by (inner; lengths)
  | |- context [scan' ?s] => rewrite <- (scan_agree s) by (inner; lengths)
  | |- next_item ?s ?vs = next_item' _ _ =>
      apply (next_item_agree vs s); inner; lengths
  | |- next_pair ?s ?ps = next_pair' _ _ =>
      apply (next_pair_agree ps s); inner; lengths
  | |- context [match ?x with _ => _ end] =>
      lazymatch x with
      | context [match _ with _ => _ end] => fail
      | _ => destruct x eqn:?
      end
  end.

Lemma JSONArray_item_agree (vs : list pyval) :
  agree 1 (S k) (fun s => JSONArray_item scan next_item s vs)
                (fun s => JSONArray_item scan' next_item' s vs).
Proof. intros s Hs; unfold JSONArray_item; same. Qed.

Lemma JSONObject_pair_agree (ps : list (str * pyval)) :
  agree 1 (S k) (fun s => JSONObject_pair scan_string scan next_pair s ps)
                (fun s => JSONObject_pair scan_string' scan' next_pair' s ps).
Proof. intros s Hs; unfold JSONObject_pair; same. Qed.

Lemma scan_value_agree :
  agree 0 (S k) (scan_value scan_string next_item next_pair)
                (scan_value scan_string' next_item' next_pair').
Proof. intros s Hs; unfold scan_value; same. Qed.

End Agree.

End StepsBudget.

Lemma scan_once_fed (n : nat) :
  fed 0 n (scan_once n)
  /\ (forall vs, fed 1 n (fun s => array_loop n s vs))
  /\ (forall ps, fed 1 n (fun s => object_loop n s ps)).
Proof.
  induction n as [|n (IH1 & IH2 & IH3)].
  - repeat split; unfold fed; intros; lia.
  - destruct (scan_once_shrinks n) as (S1 & _ & _).
    pose proof (scanstring_shrinks n) as S0.
    assert (F0 : fed 0 n (scanstring n))
      by (intros s Hs; apply scanstring_fed; lia).
    repeat split; [|intros vs|intros ps]; simpl.
    + apply scan_value_fed; auto.
    + apply JSONArray_item_fed; auto.
    + apply JSONObject_pair_fed; auto.
Qed.

Lemma scan_once_agree (n m : nat) :
  agree 0 (min n m) (scan_once n) (scan_once m)
  /\ (forall vs, agree 1 (min n m) (fun s => array_loop n s vs)
                                   (fun s => array_loop m s vs))
  /\ (forall ps, agree 1 (min n m) (fun s => object_loop n s ps)
                                   (fun s => object_loop m s ps)).
Proof.
  revert m; induction n as [|n IH]; intros m.
  - repeat split; unfold agree; simpl; intros; lia.
  - destruct m as [|m]; [repeat split; unfold agree; simpl; intros; lia|].
    destruct (IH m) as (IH1 & IH2 & IH3).
    destruct (scan_once_shrinks n) as (S1 & _ & _).
    pose proof (scanstring_shrinks n) as S0.
    assert (A0 : agree 0 (min n m) (scanstring n) (scanstring m))
      by (intros s Hs; apply scanstring_agree; lia).
    repeat split; [|intros vs|intros ps]; simpl.
    + apply scan_value_agree; auto.
    + apply JSONArray_item_agree; auto.
    + apply JSONObject_pair_agree; auto.
Qed.

(** [json.loads] raises [JSONDecodeError] or returns: the model's budget
    never runs out. *)
Lemma decode_never_starves (s : str) :
  decode (S (2 * length s)) s <> Starved.
Proof.
  unfold decode; intros H.
  destruct (scan_once (S (2 * length s)) (skip_ws s)) as [[v r]| |] eqn:E;
    [destruct (skip_ws r); discriminate | discriminate |].
  revert E; apply (proj1 (scan_once_fed (S (2 * length s)))).
  pose proof (skip_ws_length s); lia.
Qed.

(** So [None] is a decoding error, and nothing else. *)
Lemma json_loads_none (s : str) :
  json_loads s = None <-> decode (S (2 * length s)) s = Bad.
Proof.
  unfold json_loads; pose proof (decode_never_starves s) as H.
  destruct (decode (S (2 * length s)) s); split; congruence.
Qed.

Lemma decode_agree (n m : nat) (s : str) :
  2 * length s < n -> 2 * length s < m -> decode n s = decode m s.
Proof.
  intros Hn Hm; unfold decode.
  rewrite (proj1 (scan_once_agree n m) (skip_ws s)); [reflexivity|].
  pose proof (skip_ws_length s); lia.
Qed.

Lemma json_loads_decode (n : nat) (s : str) :
  2 * length s < n ->
  json_loads s = match decode n s with Got v => Some v | _ => None end.
Proof.
  intros Hn; unfold json_loads.
  rewrite (decode_agree (S (2 * length s)) n s) by lia.
  destruct (decode n s); reflexivity.
Qed.

(** ** Text that cannot continue a JSON document

    Blanks in the sense of [str.strip] and backticks are inert for the
    decoder: none of them starts, continues or closes a token.  Appending
    such characters to a text changes nothing in what the decoder reads
    before them. *)

Definition inert (c : char) : bool := is_space c || (c =? 96)%N.

Definition dull (t : str) : Prop := forallb inert t = true.

Lemma inert_neq (c k : char) :
  inert c = true -> inert k = false -> (c =? k)%N = false.
Proof.
  intros Hc Hk; destruct (N.eqb_spec c k); [subst; congruence | reflexivity].
Qed.

Lemma inert_neq_sym (c k : char) :
  inert c = true -> inert k = false -> (k =? c)%N = false.
Proof. intros Hc Hk; rewrite N.eqb_sym; apply inert_neq; assumption. Qed.

Lemma inert_range (c : char) :
  inert c = true -> (c < 34 \/ c = 96 \/ 133 <= c)%N.
Proof.
  unfold inert, is_space; intros H.
  repeat (apply orb_true_iff in H; destruct H as [H|H]);
    repeat (apply andb_true_iff in H; destruct H as [? H]);
    repeat match goal with
    | H : (_ <=? _)%N = true |- _ => apply N.leb_le in H
    | H : (_ =? _)%N = true |- _ => apply N.eqb_eq in H
    end; lia.
Qed.

(** Rewrites the tests of an inert character away. *)
Ltac tests_off H :=
  let c := match type of H with inert ?c = true => c end in
  repeat match goal with
  | |- context [(c =? ?k)%N] => rewrite (inert_neq c k H eq_refl)
  | |- context [(?k =? c)%N] => rewrite (inert_neq_sym c k H eq_refl)
  end.

Lemma inert_not_digit (c : char) : inert c = true -> is_digit c = false.
Proof.
  intros H; apply inert_range in H; unfold is_digit.
  destruct (N.leb_spec 48 c), (N.leb_spec c 57); simpl; try reflexivity; lia.
Qed.

Lemma inert_not_hex (c : char) : inert c = true -> hex_val c = None.
Proof.
  intros H; apply inert_range in H; unfold hex_val.
  destruct (N.leb_spec 48 c), (N.leb_spec c 57), (N.leb_spec 97 c),
    (N.leb_spec c 102), (N.leb_spec 65 c), (N.leb_spec c 70);
    simpl; try reflexivity; lia.
Qed.

Lemma inert_not_escape (c : char) : inert c = true -> unescape c = None.
Proof.
  intros H; unfold unescape; tests_off H; reflexivity.
Qed.

Lemma dull_cons (c : char) (t : str) :
  dull (c :: t) -> inert c = true /\ dull t.
Proof. unfold dull; simpl; intros H; apply andb_true_iff in H; exact H. Qed.

Lemma dull_lstrip (p : char -> bool) (t : str) : dull t -> dull (lstrip p t).
Proof.
  induction t as [|c t IH]; simpl; intros H; [exact H|].
  destruct (p c); [apply IH; apply (dull_cons c t H) | exact H].
Qed.

Lemma dull_skip_ws (t : str) : dull t -> dull (skip_ws t).
Proof. apply dull_lstrip. Qed.

(** Rewrites the tests of an inert character away. *)

Definition trail {A} (t : str) (o : outcome (A * str)) : outcome (A * str) :=
  match o with
  | Got (a, r) => Got (a, r ++ t)
  | Bad => Bad
  | Starved => Starved
  end.

Definition trail_opt {A} (t : str) (o : option (A * str)) : option (A * str) :=
  match o with
  | Some (a, r) => Some (a, r ++ t)
  | None => None
  end.

Section Tail.

Variable t : str.
Hypothesis t_dull : dull t.

Lemma skip_ws_trail (s : str) :
  skip_ws (s ++ t) =
  match skip_ws s with
  | [] => skip_ws t
  | c :: r => c :: r ++ t
  end.
Proof.
  induction s as [|c s IH]; simpl.
  - destruct (skip_ws t); reflexivity.
  - unfold skip_ws in *; simpl. destruct (is_json_ws c); [exact IH|reflexivity].
Qed.

Lemma after_prefix_trail (p s : str) :
  forallb (fun c => negb (inert c)) p = true ->
  after_prefix p (s ++ t) = option_map (fun r => r ++ t) (after_prefix p s).
Proof.
  revert s; induction p as [|x p IH]; intros s Hp; [reflexivity|].
  simpl in Hp; apply andb_true_iff in Hp; destruct Hp as [Hx Hp].
  apply negb_true_iff in Hx.
  destruct s as [|y s]; simpl app.
  - destruct t as [|c t']; [reflexivity|].
    destruct (dull_cons _ _ t_dull) as [Hc _].
    rewrite after_prefix_cons, (inert_neq_sym _ _ Hc Hx); reflexivity.
  - rewrite !after_prefix_cons.
    destruct (N.eqb x y); [apply IH; exact Hp|reflexivity].
Qed.

Lemma span_digits_trail (s : str) :
  span_digits (s ++ t) = let (d, r) := span_digits s in (d, r ++ t).
Proof.
  induction s as [|c s IH]; simpl.
  - destruct t as [|c t']; [reflexivity|].
    destruct (dull_cons _ _ t_dull) as [Hc _].
    simpl; rewrite (inert_not_digit _ Hc); reflexivity.
  - destruct (is_digit c); [|reflexivity].
    rewrite IH; destruct (span_digits s); reflexivity.
Qed.

Ltac at_tail :=
  let c := fresh "c" in
  let Hc := fresh "Hc" in
  destruct t as [|c ?]; [reflexivity|];
  destruct (dull_cons _ _ t_dull) as [Hc _];
  simpl; tests_off Hc;
  try rewrite (inert_not_digit _ Hc);
  try rewrite (inert_not_hex _ Hc);
  try rewrite (inert_not_escape _ Hc);
  try reflexivity.

Lemma prepend_trail (p : str) (o : option (str * str)) :
  prepend p (trail_opt t o) = trail_opt t (prepend p o).
Proof. destruct o as [[d r]|]; reflexivity. Qed.

Lemma match_digits_trail (s : str) :
  match_digits (s ++ t) = trail_opt t (match_digits s).
Proof.
  unfold match_digits; rewrite span_digits_trail.
  destruct (span_digits s) as [[|c d] r]; reflexivity.
Qed.

Lemma match_unsigned_trail (s : str) :
  match_unsigned (s ++ t) = trail_opt t (match_unsigned s).
Proof.
  destruct s as [|c s]; simpl; [at_tail|].
  destruct (c =? 48)%N; [reflexivity|].
  destruct (is_digit c); [|reflexivity].
  rewrite span_digits_trail; destruct (span_digits s); reflexivity.
Qed.

Lemma match_integer_trail (s : str) :
  match_integer (s ++ t) = trail_opt t (match_integer s).
Proof.
  destruct s as [|c s]; simpl; [at_tail|].
  destruct (c =? 45)%N.
  - rewrite match_unsigned_trail; apply prepend_trail.
  - apply (match_unsigned_trail (c :: s)).
Qed.

Lemma match_frac_trail (s : str) :
  match_frac (s ++ t) = trail_opt t (match_frac s).
Proof.
  destruct s as [|c s]; simpl; [at_tail|].
  destruct (c =? 46)%N; [|reflexivity].
  rewrite match_digits_trail; apply prepend_trail.
Qed.

Lemma match_exp_trail (s : str) :
  match_exp (s ++ t) = trail_opt t (match_exp s).
Proof.
  destruct s as [|c s]; simpl; [at_tail|].
  destruct ((c =? 101) || (c =? 69))%N; [|reflexivity].
  destruct s as [|g s]; simpl.
  - pose proof (match_digits_trail []) as Hm; simpl in Hm.
    destruct t as [|g t']; [reflexivity|].
    destruct (dull_cons _ _ t_dull) as [Hg Ht'].
    tests_off Hg; simpl.
    rewrite Hm; reflexivity.
  - change (g :: s ++ t) with ((g :: s) ++ t).
    destruct ((g =? 43) || (g =? 45))%N;
      rewrite match_digits_trail; apply prepend_trail.
Qed.

Lemma match_number_trail (s : str) :
  match_number (s ++ t) = trail_opt t (match_number s).
Proof.
  unfold match_number; rewrite match_integer_trail.
  destruct (match_integer s) as [[i r0]|]; simpl; [|reflexivity].
  rewrite match_frac_trail.
  destruct (match_frac r0) as [[f r1]|]; simpl;
    rewrite match_exp_trail;
    destruct (match_exp _) as [[e r2]|]; simpl;
    try destruct f; try destruct e; reflexivity.
Qed.

Lemma hex_digit_trail (acc : N) (s : str) :
  hex_digit acc (s ++ t) = trail_opt t (hex_digit acc s).
Proof.
  destruct s as [|c s]; simpl; [at_tail|].
  destruct (hex_val c); reflexivity.
Qed.

Lemma decode_uXXXX_trail (s : str) :
  decode_uXXXX (s ++ t) = trail_opt t (decode_uXXXX s).
Proof.
  unfold decode_uXXXX.
  rewrite hex_digit_trail; destruct (hex_digit 0 s) as [[a r1]|]; simpl; [|reflexivity].
  rewrite hex_digit_trail; destruct (hex_digit a r1) as [[b r2]|]; simpl; [|reflexivity].
  rewrite hex_digit_trail; destruct (hex_digit b r2) as [[c r3]|]; simpl; [|reflexivity].
  apply hex_digit_trail.
Qed.

Lemma push_trail (c : char) (o : outcome (str * str)) :
  push c (trail t o) = trail t (push c o).
Proof. destruct o as [[x r]| |]; reflexivity. Qed.

End Tail.

(** An unterminated string stays unterminated. *)
Lemma scanstring_dull (n : nat) (t : str) :
  dull t -> length t < n -> scanstring n t = Bad.
Proof.
  revert t; induction n as [|n IH]; intros t Ht Hn; [inversion Hn|].
  destruct t as [|c t]; [reflexivity|].
  destruct (dull_cons _ _ Ht) as [Hc Ht'].
  simpl; tests_off Hc.
  destruct (c <? 32)%N; [reflexivity|].
  rewrite IH by (simpl in Hn; auto; lia); reflexivity.
Qed.

Lemma scanstring_trail (t : str) (n : nat) (s : str) :
  dull t -> length (s ++ t) < n ->
  scanstring n (s ++ t) = trail t (scanstring n s).
Proof.
  intros Ht; revert s; induction n as [|n IH]; intros s Hn; [inversion Hn|].
  destruct s as [|c s].
  - simpl app; rewrite scanstring_dull by assumption; reflexivity.
  - rewrite length_app in Hn; simpl in *.
    destruct (c =? 34)%N; [reflexivity|].
    destruct (c =? 92)%N.
    + destruct s as [|e s]; simpl.
      * destruct t as [|e t']; [reflexivity|].
        destruct (dull_cons _ _ Ht) as [He _].
        tests_off He; rewrite (inert_not_escape _ He); reflexivity.
      * destruct (e =? 117)%N.
        -- rewrite decode_uXXXX_trail by assumption.
           destruct (decode_uXXXX s) as [[uni t2]|] eqn:E2; simpl; [|reflexivity].
           apply decode_uXXXX_length in E2.
           destruct (is_high_surrogate uni).
           ++ rewrite after_prefix_trail by (assumption || reflexivity).
              destruct (after_prefix _ t2) as [t2'|] eqn:E3; simpl.
              ** apply after_prefix_length in E3.
                 rewrite decode_uXXXX_trail by assumption.
                 destruct (decode_uXXXX t2') as [[uni2 t3]|] eqn:E4; simpl;
                   [|reflexivity].
                 apply decode_uXXXX_length in E4.
                 destruct (is_low_surrogate uni2);
                   rewrite IH by (rewrite length_app; simpl in *; lia);
                   apply push_trail.
              ** rewrite IH by (rewrite length_app; simpl in *; lia).
                 apply push_trail.
           ++ rewrite IH by (rewrite length_app; simpl in *; lia).
              apply push_trail.
        -- destruct (unescape e); [|reflexivity].
           rewrite IH by (rewrite length_app; simpl in *; lia).
           apply push_trail.
    + destruct (c <? 32)%N; [reflexivity|].
      rewrite IH by (rewrite length_app; lia).
      apply push_trail.
Qed.


Lemma expect_trail (t p r : str) :
  dull t ->
  forallb (fun c => negb (inert c)) p = true ->
  after_prefix p [] = None ->
  expect p (r ++ t) = option_map (fun x => x ++ t) (expect p r).
Proof.
  intros Ht Hp Hnil; unfold expect.
  rewrite (skip_ws_trail t r).
  destruct (skip_ws r) as [|c r'] eqn:E.
  - pose proof (after_prefix_trail (skip_ws t) (dull_skip_ws t Ht) p [] Hp)
      as H.
    simpl app in H; rewrite H, Hnil; reflexivity.
  - apply (after_prefix_trail t Ht p (c :: r') Hp).
Qed.

Lemma scan_constant_trail (t s : str) :
  dull t -> scan_constant (s ++ t) = trail t (scan_constant s).
Proof.
  intros Ht; unfold scan_constant.
  repeat (rewrite (after_prefix_trail t Ht) by reflexivity;
          match goal with
          | |- context [option_map _ (after_prefix ?p s)] =>
              destruct (after_prefix p s)
          end; cbn [option_map trail]; [reflexivity|]).
  reflexivity.
Qed.

Lemma scan_literal_trail (t s : str) :
  dull t -> scan_literal (s ++ t) = trail t (scan_literal s).
Proof.
  intros Ht; unfold scan_literal.
  repeat (rewrite (after_prefix_trail t Ht) by reflexivity;
          match goal with
          | |- context [option_map _ (after_prefix ?p s)] =>
              destruct (after_prefix p s)
          end; cbn [option_map trail]; [reflexivity|]).
  rewrite (match_number_trail t Ht).
  destruct (match_number s) as [[v r]|]; cbn [trail_opt trail];
    [reflexivity | apply scan_constant_trail; exact Ht].
Qed.

(** What a scanner reads before inert text does not depend on that text. *)
Definition trails {A} (slack k : nat) (f : str -> outcome (A * str)) : Prop :=
  forall t s, dull t -> 2 * length (s ++ t) + slack < k ->
              f (s ++ t) = trail t (f s).

Lemma trails_after_ws {A} {slack k : nat} {f : str -> outcome (A * str)} :
  trails slack k f -> shrinks f ->
  forall t r, dull t -> 2 * length (r ++ t) + slack < k ->
              f (skip_ws (r ++ t)) = trail t (f (skip_ws r)).
Proof.
  intros Hf Hs t r Ht Hk.
  rewrite (skip_ws_trail t r).
  pose proof (skip_ws_length r) as Lr; pose proof (skip_ws_length t) as Lt.
  rewrite length_app in Hk.
  destruct (skip_ws r) as [|c r'] eqn:E.
  - change (skip_ws t) with ([] ++ skip_ws t) at 1.
    rewrite (Hf (skip_ws t) [] (dull_skip_ws t Ht)) by (simpl; lia).
    destruct (f []) as [[a r0]| |] eqn:E0; try reflexivity.
    apply Hs in E0; inversion E0.
  - apply (Hf t (c :: r') Ht); rewrite length_app; simpl in *; lia.
Qed.

Section StepsTrail.

Variable k : nat.
Variable scan_string : str -> outcome (str * str).
Variable scan : str -> outcome (pyval * str).
Variable next_item : str -> list pyval -> outcome (pyval * str).
Variable next_pair : str -> list (str * pyval) -> outcome (pyval * str).
Hypothesis scan_string_shrinks : shrinks scan_string.
Hypothesis scan_shrinks : shrinks scan.
Hypothesis next_item_shrinks : forall vs, shrinks (fun s => next_item s vs).
Hypothesis scan_string_trails : trails 0 k scan_string.
Hypothesis scan_trails : trails 0 k scan.
Hypothesis next_item_trails : forall vs, trails 1 k (fun s => next_item s vs).
Hypothesis next_pair_trails : forall ps, trails 1 k (fun s => next_pair s ps).

Ltac expecting Ht :=
  rewrite (expect_trail _ _ _ Ht) by reflexivity;
  match goal with
  | |- context [option_map _ (expect ?p ?r)] =>
      let E := fresh "E" in
      destruct (expect p r) eqn:E; cbn [option_map trail];
      [apply expect_length in E|]
  end.

Lemma JSONArray_item_trails (vs : list pyval) :
  trails 1 (S k) (fun s => JSONArray_item scan next_item s vs).
Proof.
  intros t s Ht Hk; unfold JSONArray_item.
  rewrite (scan_trails t s Ht) by lia.
  rewrite length_app in Hk.
  destruct (scan s) as [[v r]| |] eqn:E; cbn [trail]; try reflexivity.
  apply scan_shrinks in E.
  expecting Ht; [reflexivity|].
  expecting Ht; [|reflexivity].
  apply (trails_after_ws (next_item_trails _) (next_item_shrinks _) t _ Ht).
  rewrite length_app; simpl in *; lia.
Qed.

Lemma JSONObject_pair_trails (ps : list (str * pyval)) :
  trails 1 (S k) (fun s => JSONObject_pair scan_string scan next_pair s ps).
Proof.
  intros t s Ht Hk; unfold JSONObject_pair.
  rewrite (scan_string_trails t s Ht) by lia.
  rewrite length_app in Hk.
  destruct (scan_string s) as [[key r]| |] eqn:E; cbn [trail]; try reflexivity.
  apply scan_string_shrinks in E.
  expecting Ht; [|reflexivity].
  rewrite (trails_after_ws scan_trails scan_shrinks t _ Ht)
    by (rewrite length_app; simpl in *; lia).
  destruct (scan (skip_ws _)) as [[v r1]| |] eqn:E1; cbn [trail];
    try reflexivity.
  apply scan_shrinks in E1; pose proof (skip_ws_length s0).
  expecting Ht; [reflexivity|].
  expecting Ht; [|reflexivity].
  expecting Ht; [|reflexivity].
  apply (next_pair_trails _ t _ Ht).
  rewrite length_app; simpl in *; lia.
Qed.

Lemma scan_value_trails :
  trails 0 (S k) (scan_value scan_string next_item next_pair).
Proof.
  intros t s Ht Hk; unfold scan_value.
  rewrite length_app in Hk.
  rewrite (after_prefix_trail t Ht) by reflexivity.
  destruct (after_prefix [c_quote] s) as [s1|] eqn:E; cbn [option_map].
  { apply after_prefix_length in E.
    rewrite (scan_string_trails t s1 Ht)
      by (rewrite length_app; simpl in *; lia).
    destruct (scan_string s1) as [[x r]| |]; reflexivity. }
  clear E.
  rewrite (after_prefix_trail t Ht) by reflexivity.
  destruct (after_prefix (txt "{") s) as [s1|] eqn:E; cbn [option_map].
  { apply after_prefix_length in E.
    expecting Ht; [reflexivity|].
    expecting Ht; [|reflexivity].
    apply (next_pair_trails _ t _ Ht).
    rewrite length_app; simpl in *; lia. }
  clear E.
  rewrite (after_prefix_trail t Ht) by reflexivity.
  destruct (after_prefix (txt "[") s) as [s1|] eqn:E; cbn [option_map].
  { apply after_prefix_length in E.
    expecting Ht; [reflexivity|].
    apply (trails_after_ws (next_item_trails _) (next_item_shrinks _) t _ Ht).
    rewrite length_app; simpl in *; lia. }
  apply scan_literal_trail; exact Ht.
Qed.

End StepsTrail.

Lemma scan_once_trails (n : nat) :
  trails 0 n (scan_once n)
  /\ (forall vs, trails 1 n (fun s => array_loop n s vs))
  /\ (forall ps, trails 1 n (fun s => object_loop n s ps)).
Proof.
  induction n as [|n (IH1 & IH2 & IH3)].
  - repeat split; unfold trails; intros; lia.
  - destruct (scan_once_shrinks n) as (S1 & S2 & _).
    pose proof (scanstring_shrinks n) as S0.
    assert (T0 : trails 0 n (scanstring n))
      by (intros t s Ht Hs; apply scanstring_trail; [exact Ht | lia]).
    repeat split; [|intros vs|intros ps]; simpl.
    + apply scan_value_trails; auto.
    + apply JSONArray_item_trails; auto.
    + apply JSONObject_pair_trails; auto.
Qed.

(** ** [json.loads] and the text around a document *)

(** Inert text after a document either is JSON blanks only, and changes
    nothing, or makes the text no document at all. *)
Lemma json_loads_trail (s t : str) (v : pyval) :
  dull t -> json_loads (s ++ t) = Some v ->
  json_loads s = Some v /\ skip_ws t = [].
Proof.
  intros Ht.
  set (n := S (2 * length (s ++ t))).
  assert (Hn : 2 * length (s ++ t) < n) by (unfold n; lia).
  assert (Hs : 2 * length s < n) by (rewrite length_app in Hn; lia).
  rewrite (json_loads_decode n (s ++ t) Hn), (json_loads_decode n s Hs).
  unfold decode.
  destruct (scan_once_trails n) as (T1 & _ & _).
  destruct (scan_once_shrinks n) as (S1 & _ & _).
  rewrite (trails_after_ws T1 S1 t s Ht) by lia.
  destruct (scan_once n (skip_ws s)) as [[v' r]| |]; cbn [trail];
    try discriminate.
  rewrite (skip_ws_trail t r).
  destruct (skip_ws r) as [|c r']; [|discriminate].
  destruct (skip_ws t); [|discriminate].
  intros H; split; [exact H | reflexivity].
Qed.

Lemma after_prefix_inert (p : str) (c : char) (s : str) :
  inert c = true ->
  forallb (fun c => negb (inert c)) p = true ->
  after_prefix p [] = None ->
  after_prefix p (c :: s) = None.
Proof.
  intros Hc Hp Hnil; destruct p as [|x p]; [discriminate Hnil|].
  simpl in Hp; apply andb_true_iff in Hp; destruct Hp as [Hx _].
  apply negb_true_iff in Hx.
  rewrite after_prefix_cons, (inert_neq_sym _ _ Hc Hx); reflexivity.
Qed.

(** No value starts with an inert character. *)
Lemma scan_value_inert
  (scan_string : str -> outcome (str * str))
  (next_item : str -> list pyval -> outcome (pyval * str))
  (next_pair : str -> list (str * pyval) -> outcome (pyval * str))
  (c : char) (s : str) :
  inert c = true ->
  scan_value scan_string next_item next_pair (c :: s) = Bad.
Proof.
  intros Hc.
  unfold scan_value, scan_literal, scan_constant.
  repeat rewrite (after_prefix_inert _ c s Hc) by reflexivity.
  unfold match_number, match_integer, match_unsigned.
  tests_off Hc; rewrite (inert_not_digit _ Hc); reflexivity.
Qed.

Lemma json_loads_inert_head (c : char) (s : str) :
  inert c = true -> is_json_ws c = false -> json_loads (c :: s) = None.
Proof.
  intros Hc Hw; unfold json_loads, decode, skip_ws.
  simpl lstrip; rewrite Hw.
  simpl scan_once; rewrite scan_value_inert by exact Hc; reflexivity.
Qed.

Lemma json_loads_lead (c : char) (s : str) (v : pyval) :
  inert c = true -> json_loads (c :: s) = Some v -> json_loads s = Some v.
Proof.
  intros Hc.
  destruct (is_json_ws c) eqn:Hw.
  - set (n := S (2 * length (c :: s))).
    rewrite (json_loads_decode n (c :: s)), (json_loads_decode n s)
      by (unfold n; simpl; lia).
    unfold decode, skip_ws; simpl lstrip; rewrite Hw; auto.
  - rewrite json_loads_inert_head by assumption; discriminate.
Qed.

Lemma space_inert (c : char) : is_space c = true -> inert c = true.
Proof. unfold inert; intros ->; reflexivity. Qed.

Lemma lstrip_split (p : char -> bool) (s : str) :
  exists t, s = t ++ lstrip p s /\ forallb p t = true.
Proof.
  induction s as [|c s (t & Hs & Ht)]; simpl.
  - exists []; split; reflexivity.
  - destruct (p c) eqn:Hc.
    + exists (c :: t); split; [simpl; f_equal; exact Hs|].
      simpl; rewrite Hc; exact Ht.
    + exists []; split; reflexivity.
Qed.

Lemma forallb_rev {A} (p : A -> bool) (l : list A) :
  forallb p (rev l) = forallb p l.
Proof.
  induction l as [|a l IH]; simpl; [reflexivity|].
  rewrite forallb_app, IH; simpl; rewrite andb_true_r; apply andb_comm.
Qed.

Lemma rstrip_split (p : char -> bool) (s : str) :
  exists t, s = rstrip p s ++ t /\ forallb p t = true.
Proof.
  unfold rstrip.
  destruct (lstrip_split p (rev s)) as (t & Hs & Ht).
  exists (rev t); split; [|rewrite forallb_rev; exact Ht].
  rewrite <- rev_app_distr, <- Hs, rev_involutive; reflexivity.
Qed.

Lemma dull_spaces (t : str) : forallb is_space t = true -> dull t.
Proof.
  unfold dull; induction t as [|c t IH]; simpl; [reflexivity|].
  intros H; apply andb_true_iff in H; destruct H as [Hc Ht].
  rewrite (space_inert c Hc), (IH Ht); reflexivity.
Qed.

(** A document is still the same document after [strip()]. *)
Lemma json_loads_strip (s : str) (v : pyval) :
  json_loads s = Some v -> json_loads (py_strip s) = Some v.
Proof.
  intros H; unfold py_strip, strip_by.
  assert (L : json_loads (lstrip is_space s) = Some v).
  { revert H; induction s as [|c s IH]; simpl; [auto|].
    destruct (is_space c) eqn:Hc; [|auto].
    intros H; apply IH; apply (json_loads_lead c); [apply space_inert|]; auto. }
  destruct (rstrip_split is_space (lstrip is_space s)) as (t & Hs & Ht).
  rewrite Hs in L.
  apply (json_loads_trail _ t v (dull_spaces t Ht) L).
Qed.

(** ** The fallback transform on a fenced document *)

Lemma lstrip_repeat (p : char -> bool) (c : char) (n : nat) (s : str) :
  p c = true -> lstrip p (repeat c n ++ s) = lstrip p s.
Proof. intros Hc; induction n as [|n IH]; simpl; [|rewrite Hc]; auto. Qed.

Lemma rev_repeat_same (c : char) (n : nat) : rev (repeat c n) = repeat c n.
Proof.
  induction n as [|n IH]; simpl; [reflexivity|].
  rewrite IH; symmetry; apply repeat_cons.
Qed.

Lemma rstrip_repeat (p : char -> bool) (c : char) (n : nat) (s : str) :
  p c = true -> rstrip p (s ++ repeat c n) = rstrip p s.
Proof.
  intros Hc; unfold rstrip.
  rewrite rev_app_distr, rev_repeat_same, lstrip_repeat by exact Hc.
  reflexivity.
Qed.

Lemma rstrip_stop (p : char -> bool) (s : str) (c : char) :
  p c = false -> rstrip p (s ++ [c]) = s ++ [c].
Proof.
  intros Hc; unfold rstrip.
  rewrite rev_app_distr; simpl; rewrite Hc; simpl.
  rewrite rev_involutive; reflexivity.
Qed.

Lemma after_prefix_app (p r : str) : after_prefix p (p ++ r) = Some r.
Proof.
  induction p as [|x p IH]; [reflexivity|].
  simpl app; rewrite after_prefix_cons, N.eqb_refl; exact IH.
Qed.

Lemma replace_first_here (old new r : str) :
  replace_first old new (old ++ r) = new ++ r.
Proof.
  destruct (old ++ r) eqn:E; simpl; rewrite <- E, after_prefix_app; reflexivity.
Qed.

(** A document ends with something else than a backtick. *)
Lemma document_end (doc : str) (v : pyval) :
  json_loads doc = Some v ->
  exists d x, doc = d ++ [x] /\ (x =? c_backtick)%N = false.
Proof.
  intros H.
  destruct (rev doc) as [|x d'] eqn:E.
  - apply (f_equal (@rev char)) in E; rewrite rev_involutive in E.
    subst doc; discriminate H.
  - apply (f_equal (@rev char)) in E; rewrite rev_involutive in E.
    simpl in E; exists (rev d'), x; split; [exact E|].
    destruct (N.eqb_spec x c_backtick) as [->|]; [|reflexivity].
    rewrite E in H.
    apply json_loads_trail in H; [|reflexivity].
    destruct H as [_ H]; discriminate H.
Qed.

Lemma cleanup_fenced (doc : str) (v : pyval) (i j : nat) :
  json_loads doc = Some v ->
  cleanup (repeat c_backtick (S i) ++ txt "json" ++ doc
           ++ repeat c_backtick (S j))
  = py_strip doc.
Proof.
  intros H; unfold cleanup.
  destruct (document_end doc v H) as (d & x & -> & Hx).
  set (ticks := fun c : char => existsb (N.eqb c) [c_backtick]).
  assert (Hin : forall n s, py_strip (repeat c_backtick (S n) ++ s
                                      ++ repeat c_backtick (S j))
                            = repeat c_backtick (S n) ++ s
                              ++ repeat c_backtick (S j)).
  { intros n s; unfold py_strip, strip_by.
    change (repeat c_backtick (S n)) with (c_backtick :: repeat c_backtick n).
    change (repeat c_backtick (S j)) with (c_backtick :: repeat c_backtick j).
    rewrite (repeat_cons j c_backtick).
    change (lstrip is_space ((c_backtick :: repeat c_backtick n) ++ s
                             ++ repeat c_backtick j ++ [c_backtick]))
      with ((c_backtick :: repeat c_backtick n) ++ s
            ++ repeat c_backtick j ++ [c_backtick]).
    rewrite !app_assoc; apply rstrip_stop; reflexivity. }
  rewrite (app_assoc (txt "json") (d ++ [x]) (repeat c_backtick (S j))).
  rewrite Hin.
  assert (Hout : py_strip_chars [c_backtick]
                   (repeat c_backtick (S i) ++ (txt "json" ++ d ++ [x])
                    ++ repeat c_backtick (S j))
                 = txt "json" ++ d ++ [x]).
  { unfold py_strip_chars, strip_by; fold ticks.
    rewrite (lstrip_repeat ticks c_backtick (S i)) by reflexivity.
    change (lstrip ticks ((txt "json" ++ d ++ [x]) ++ repeat c_backtick (S j)))
      with ((txt "json" ++ d ++ [x]) ++ repeat c_backtick (S j)).
    rewrite (rstrip_repeat ticks c_backtick (S j)) by reflexivity.
    rewrite !app_assoc.
    apply rstrip_stop; unfold ticks; simpl; rewrite Hx; reflexivity. }
  rewrite Hout, replace_first_here; reflexivity.
Qed.

(** C1.  A JSON document wrapped in a code fence with a leading [json]
    tag (one or more backticks, the word [json], the document, one or more
    backticks) is recovered to the same parsed result as the document
    itself. *)
Theorem fenced_json_recovered (doc : str) (v : pyval) (i j : nat) :
  json_loads doc = Some v ->
  recover (repeat c_backtick (S i) ++ txt "json" ++ doc
           ++ repeat c_backtick (S j))
  = recover doc
  /\ recover doc = Ok v.
Proof.
  intros H.
  assert (Hdoc : recover doc = Ok v) by (unfold recover; rewrite H; reflexivity).
  split; [|exact Hdoc].
  rewrite Hdoc; unfold recover.
  assert (Hbad : forall rest, json_loads (repeat c_backtick (S i) ++ rest) = None)
    by (intros rest; apply (json_loads_inert_head c_backtick); reflexivity).
  rewrite Hbad, (cleanup_fenced doc v i j H), (json_loads_strip doc v H).
  reflexivity.
Qed.

(** ** Dictionaries and lists *)

Lemma str_eqb_eq (a b : str) : str_eqb a b = true <-> a = b.
Proof.
  revert b; induction a as [|x a IH]; intros [|y b]; simpl;
    try (split; congruence).
  rewrite andb_true_iff, N.eqb_eq, IH; split; [intros [-> ->]|intros H];
    [reflexivity | inversion H; auto].
Qed.

Lemma dict_get_set_same {V} (d : list (str * V)) (k : str) (v : V) :
  dict_get (dict_set d k v) k = Some v.
Proof.
  induction d as [|[k' v'] d IH]; simpl.
  - rewrite (proj2 (str_eqb_eq k k) eq_refl); reflexivity.
  - destruct (str_eqb k' k) eqn:E; simpl; rewrite E; auto.
Qed.

Lemma dict_get_set_other {V} (d : list (str * V)) (k k' : str) (v : V) :
  str_eqb k k' = false -> dict_get (dict_set d k v) k' = dict_get d k'.
Proof.
  intros Hk; induction d as [|[k1 v1] d IH]; simpl.
  - rewrite Hk; reflexivity.
  - destruct (str_eqb k1 k) eqn:E; simpl.
    + apply str_eqb_eq in E; subst k1; rewrite Hk; reflexivity.
    + destruct (str_eqb k1 k'); auto.
Qed.

Lemma mapM_Forall2 {A B} (f : A -> res B) (l : list A) (l' : list B) :
  mapM f l = Ok l' <-> Forall2 (fun a b => f a = Ok b) l l'.
Proof.
  revert l'; induction l as [|a l IH]; intros l'; simpl.
  - split; [intros H; inversion H; constructor|intros H; inversion H; auto].
  - split.
    + destruct (f a) as [b|] eqn:Ea; simpl; [|discriminate].
      destruct (mapM f l) as [bs|] eqn:El; simpl; [|discriminate].
      intros H; inversion H; subst; constructor; [exact Ea|].
      apply IH; reflexivity.
    + intros H; inversion H as [|a' b l0 bs Ha Hl]; subst.
      rewrite Ha; simpl.
      rewrite (proj2 (IH bs) Hl); reflexivity.
Qed.

Lemma Forall2_nth_error {A B} (R : A -> B -> Prop) (l : list A) (l' : list B) :
  Forall2 R l l' ->
  forall i a, nth_error l i = Some a ->
              exists b, nth_error l' i = Some b /\ R a b.
Proof.
  induction 1 as [|a0 b0 l l' H0 H IH]; intros [|i] a; simpl;
    try discriminate.
  - intros E; inversion E; subst; eauto.
  - apply IH.
Qed.

(** ** Building the response *)

Hypothesis validate_str_str : forall s, validate_str (PyStr s) = Some s.
Hypothesis validate_float_float : forall x, validate_float (PyFloat x) = Some x.


Lemma new_Detection_ok (t ds sv i : pyval) (d : Detection) :
  new_Detection t ds sv i = Ok d <->
  validate_str t = Some (title d)
  /\ validate_str ds = Some (description d)
  /\ validate_str sv = Some (severity d)
  /\ validate_list_str i = Some (indicators d).
Proof.
  unfold new_Detection; split.
  - destruct (validate_str t), (validate_str ds), (validate_str sv),
      (validate_list_str i); try discriminate.
    intros H; inversion H; subst; simpl; auto.
  - intros (-> & -> & -> & ->); destruct d; reflexivity.
Qed.

Lemma new_LogAnalysisResponse_ok
  (sc sm : pyval) (ds : list Detection) (a q : pyval)
  (r : LogAnalysisResponse) :
  new_LogAnalysisResponse sc sm ds a q = Ok r <->
  validate_float sc = Some (overall_risk_score r)
  /\ validate_str sm = Some (summary r)
  /\ ds = detections r
  /\ validate_list_str a = Some (recommended_actions r)
  /\ validate_list_str q = Some (queries_to_run r).
Proof.
  unfold new_LogAnalysisResponse; split.
  - destruct (validate_float sc), (validate_str sm), (validate_list_str a),
      (validate_list_str q); try discriminate.
    intros H; inversion H; subst; simpl; auto.
  - intros (-> & -> & -> & -> & ->); destruct r; reflexivity.
Qed.

Lemma detection_of_dict (d : list (str * pyval)) :
  detection_of (PyDict d) =
  new_Detection (get_default d (txt "title") (PyStr []))
                (get_default d (txt "description") (PyStr []))
                (get_default d (txt "severity") (PyStr (txt "Medium")))
                (get_default d (txt "indicators") (PyList [])).
Proof. reflexivity. Qed.

(** What [build_response] returns on an object, step by step. *)
Lemma build_response_ok (o : list (str * pyval)) (r : LogAnalysisResponse) :
  build_response (PyDict o) = Ok r <->
  (exists items,
      py_iter (get_default o (txt "detections") (PyList [])) = Ok items
      /\ Forall2 (fun item d => detection_of item = Ok d) items (detections r))
  /\ validate_float (get_default o (txt "overall_risk_score")
                       (PyFloat (parse_float (txt "0.0"))))
     = Some (overall_risk_score r)
  /\ validate_str (get_default o (txt "summary") (PyStr [])) = Some (summary r)
  /\ validate_list_str (get_default o (txt "recommended_actions") (PyList []))
     = Some (recommended_actions r)
  /\ validate_list_str (get_default o (txt "queries_to_run") (PyList []))
     = Some (queries_to_run r).
Proof.
  unfold build_response, py_get, bind.
  destruct (py_iter _) as [items|e] eqn:Ei.
  - destruct (mapM detection_of items) as [ds|e] eqn:Em.
    + rewrite new_LogAnalysisResponse_ok.
      apply mapM_Forall2 in Em.
      split.
      * intros (H1 & H2 & <- & H4 & H5); repeat split; eauto.
      * intros ((items' & Hi & Hf) & H1 & H2 & H4 & H5).
        inversion Hi; subst items'.
        apply mapM_Forall2 in Hf, Em.
        rewrite Hf in Em; inversion Em; subst; auto.
    + split; [discriminate|].
      intros ((items' & Hi & Hf) & _); inversion Hi; subst items'.
      apply mapM_Forall2 in Hf; rewrite Hf in Em; discriminate.
  - split; [discriminate|].
    intros ((items' & Hi & _) & _); discriminate.
Qed.

Lemma get_default_present {V} (o : list (str * V)) (k : str) (v default : V) :
  dict_get o k = Some v -> get_default o k default = v.
Proof. unfold get_default; intros ->; reflexivity. Qed.

Lemma get_default_absent {V} (o : list (str * V)) (k : str) (default : V) :
  dict_get o k = None -> get_default o k default = default.
Proof. unfold get_default; intros ->; reflexivity. Qed.


Lemma analyze_logs_after_call
  (req : LogAnalysisRequest) (trace trace' : list event) (raw : str) :
  call_agi_agent system_prompt (user_prompt req) trace = (Ok (PyStr raw), trace') ->
  analyze_logs req trace
  = (result <- recover raw ;; build_response result, trace').
Proof. unfold analyze_logs; intros ->; reflexivity. Qed.


Lemma get_default_set_other {V} (o : list (str * V)) (k k' : str)
  (v default : V) :
  str_eqb k k' = false ->
  get_default (dict_set o k v) k' default = get_default o k' default.
Proof.
  intros H; unfold get_default; rewrite dict_get_set_other by exact H.
  reflexivity.
Qed.

(** The items of the comprehension and the detections of the response go
    in pairs. *)
Lemma detections_in_step
  (o : list (str * pyval)) (r : LogAnalysisResponse) (items : list pyval) :
  build_response (PyDict o) = Ok r ->
  dict_get o (txt "detections") = Some (PyList items) ->
  Forall2 (fun item d => detection_of item = Ok d) items (detections r).
Proof.
  intros H Hd; apply build_response_ok in H.
  destruct H as ((items' & Hi & Hf) & _).
  rewrite (get_default_present _ _ _ _ Hd) in Hi.
  inversion Hi; subst; exact Hf.
Qed.

(** * The contract of the service *)


(** C3.  With the credential unset (absent or empty), the request fails
    with status 500 and the fixed message, and the trace is unchanged: no
    outbound call was made, whatever the external service would answer. *)
Theorem missing_key_is_server_error
  (req : LogAnalysisRequest) (trace : list event) :
  key_missing = true ->
  analyze_logs req trace = (Raise (HTTPException 500 key_message), trace)
  /\ forall system user,
       call_agi_agent system user trace
       = (Raise (HTTPException 500 key_message), trace).
Proof.
  intros H; unfold analyze_logs, call_agi_agent; rewrite H; auto.
Qed.

(** C4.  When the direct parse and the parse of the cleaned text both
    fail, the recovery raises [JSONDecodeError] and so does the request:
    no response is returned. *)
Theorem unrecoverable_payload_fails (raw : str) :
  json_loads raw = None ->
  json_loads (cleanup raw) = None ->
  recover raw = Raise JSONDecodeError
  /\ forall req trace trace',
       call_agi_agent system_prompt (user_prompt req) trace
       = (Ok (PyStr raw), trace') ->
       analyze_logs req trace = (Raise JSONDecodeError, trace').
Proof.
  intros H1 H2.
  assert (Hr : recover raw = Raise JSONDecodeError)
    by (unfold recover; rewrite H1, H2; reflexivity).
  split; [exact Hr|].
  intros req trace trace' Hc.
  rewrite (analyze_logs_after_call _ _ _ _ Hc), Hr; reflexivity.
Qed.

Lemma field_is_get_default {A} (validate : pyval -> option A)
  (default_value : pyval) (default : A) (o : list (str * pyval)) (k : str)
  (x : A) :
  validate default_value = Some default ->
  validate (get_default o k default_value) = Some x
  <-> field_is validate default o k x.
Proof.
  intros H; unfold field_is, get_default.
  destruct (dict_get o k); [reflexivity|].
  rewrite H; split; congruence.
Qed.

(** C5.  The response is returned exactly when every top-level field is
    either absent or valid, and an absent key gives its default: an empty
    sequence for [detections], [recommended_actions] and [queries_to_run],
    the empty string for [summary], [0.0] for [overall_risk_score].  So a
    payload with none of the five keys gives the all-default response. *)
Theorem missing_top_level_fields_default (o : list (str * pyval)) :
  (forall r,
     build_response (PyDict o) = Ok r <->
     match dict_get o (txt "detections") with
     | Some v =>
         exists items,
           py_iter v = Ok items
           /\ Forall2 (fun item d => detection_of item = Ok d)
                items (detections r)
     | None => detections r = []
     end
     /\ field_is validate_float (parse_float (txt "0.0"))
          o (txt "overall_risk_score") (overall_risk_score r)
     /\ field_is validate_str [] o (txt "summary") (summary r)
     /\ field_is validate_list_str []
          o (txt "recommended_actions") (recommended_actions r)
     /\ field_is validate_list_str []
          o (txt "queries_to_run") (queries_to_run r))
  /\ (dict_get o (txt "detections") = None ->
      dict_get o (txt "overall_risk_score") = None ->
      dict_get o (txt "summary") = None ->
      dict_get o (txt "recommended_actions") = None ->
      dict_get o (txt "queries_to_run") = None ->
      build_response (PyDict o)
      = Ok {| overall_risk_score := parse_float (txt "0.0");
              summary := []; detections := [];
              recommended_actions := []; queries_to_run := [] |}).
Proof.
  assert (G : forall r,
    build_response (PyDict o) = Ok r <->
    match dict_get o (txt "detections") with
    | Some v =>
        exists items,
          py_iter v = Ok items
          /\ Forall2 (fun item d => detection_of item = Ok d)
               items (detections r)
    | None => detections r = []
    end
    /\ field_is validate_float (parse_float (txt "0.0"))
         o (txt "overall_risk_score") (overall_risk_score r)
    /\ field_is validate_str [] o (txt "summary") (summary r)
    /\ field_is validate_list_str []
         o (txt "recommended_actions") (recommended_actions r)
    /\ field_is validate_list_str []
         o (txt "queries_to_run") (queries_to_run r)).
  { intros r; rewrite build_response_ok.
    rewrite (field_is_get_default validate_float _ _ o _ _
               (validate_float_float _)).
    rewrite (field_is_get_default validate_str _ _ o _ _
               (validate_str_str _)).
    rewrite !(field_is_get_default validate_list_str (PyList []) [] o _ _
                eq_refl).
    unfold get_default at 1.
    destruct (dict_get o (txt "detections")) as [v|]; [reflexivity|].
    split; intros [Hd Hrest]; (split; [|exact Hrest]).
    - destruct Hd as (items & Hi & Hf).
      inversion Hi; subst items; inversion Hf; reflexivity.
    - exists []; rewrite Hd; split; [reflexivity | constructor]. }
  split; [exact G|].
  intros Hd Hx Hs Ha Hq; apply G.
  unfold field_is; rewrite Hd, Hx, Hs, Ha, Hq; repeat split.
Qed.

(** C6.  The detections of the response follow the payload's entries one
    by one; an entry that omits [severity] gives a detection whose severity
    is the literal [Medium], one that omits [indicators] gives an empty
    sequence of indicators.  Neither omission fails the entry: it is
    accepted as soon as its other fields validate. *)
Theorem severity_defaults_to_Medium :
  (forall (o : list (str * pyval)) (r : LogAnalysisResponse)
          (items : list pyval),
     build_response (PyDict o) = Ok r ->
     dict_get o (txt "detections") = Some (PyList items) ->
     length (detections r) = length items
     /\ forall i d, nth_error items i = Some (PyDict d) ->
          exists det, nth_error (detections r) i = Some det
            /\ (dict_get d (txt "severity") = None ->
                severity det = txt "Medium")
            /\ (dict_get d (txt "indicators") = None -> indicators det = []))
  /\ (forall (d : list (str * pyval)) (t ds : str) (ind : list str),
        dict_get d (txt "severity") = None ->
        validate_str (get_default d (txt "title") (PyStr [])) = Some t ->
        validate_str (get_default d (txt "description") (PyStr [])) = Some ds ->
        validate_list_str (get_default d (txt "indicators") (PyList []))
        = Some ind ->
        detection_of (PyDict d)
        = Ok {| title := t; description := ds; severity := txt "Medium";
                indicators := ind |})
  /\ (forall (d : list (str * pyval)) (t ds sv : str),
        dict_get d (txt "indicators") = None ->
        validate_str (get_default d (txt "title") (PyStr [])) = Some t ->
        validate_str (get_default d (txt "description") (PyStr [])) = Some ds ->
        validate_str (get_default d (txt "severity") (PyStr (txt "Medium")))
        = Some sv ->
        detection_of (PyDict d)
        = Ok {| title := t; description := ds; severity := sv;
                indicators := [] |}).
Proof.
  split; [|split].
  - intros o r items H Hd.
    pose proof (detections_in_step o r items H Hd) as Hf.
    split; [symmetry; exact (Forall2_length Hf)|].
    intros i d Hi.
    destruct (Forall2_nth_error _ _ _ Hf i _ Hi) as (det & Hn & Hdet).
    exists det; split; [exact Hn|].
    rewrite detection_of_dict in Hdet; apply new_Detection_ok in Hdet.
    destruct Hdet as (_ & _ & Hs & Hx).
    split; intros Hk; rewrite (get_default_absent _ _ _ Hk) in *.
    + rewrite validate_str_str in Hs; inversion Hs; reflexivity.
    + inversion Hx; reflexivity.
  - intros d t ds ind Hs Ht Hds Hi.
    rewrite detection_of_dict; apply new_Detection_ok.
    rewrite (get_default_absent _ _ _ Hs), validate_str_str; auto.
  - intros d t ds sv Hi Ht Hds Hs.
    rewrite detection_of_dict; apply new_Detection_ok.
    rewrite (get_default_absent _ _ _ Hi); auto.
Qed.

(** C7, as the code has it.  A reply with a status outside 2xx is raised to
    the caller with that same status; the detail is the fixed prefix
    [AGI API error: ] followed by the reply's body text, verbatim.  The one
    outbound call and the debug prints are what the request leaves in the
    trace. *)
Theorem external_error_propagated
  (req : LogAnalysisRequest) (trace : list event) (resp : Response) :
  key_missing = false ->
  client_post (agi_post system_prompt (user_prompt req)) = Ok resp ->
  is_success resp = false ->
  analyze_logs req trace
  = (Raise (HTTPException (status_code resp)
              (txt "AGI API error: " ++ text resp)),
     (trace ++ [Posted (agi_post system_prompt (user_prompt req))])
     ++ debug_prints resp (request_payload system_prompt (user_prompt req))).
Proof.
  intros Hk Hp Hs; unfold analyze_logs, call_agi_agent.
  rewrite Hk, Hp, Hs; reflexivity.
Qed.

Section Score.

(** A [float] field converts an [int] with [float]. *)
Hypothesis validate_float_int :
  forall z, validate_float (PyInt z) = float_of_int z.





End Score.

(** C9.  An [environment] or [question] that is present but empty gives
    the same prompt as an absent one, with the default sentinel in its
    place. *)
Theorem empty_prompt_fields_use_defaults (l : str) (e q : option str) :
  user_prompt {| logs := l; environment := Some []; question := q |}
  = user_prompt {| logs := l; environment := None; question := q |}
  /\ user_prompt {| logs := l; environment := e; question := Some [] |}
     = user_prompt {| logs := l; environment := e; question := None |}
  /\ user_prompt {| logs := l; environment := Some []; question := Some [] |}
     = [c_newline] ++ txt "    ENVIRONMENT:" ++ [c_newline]
       ++ txt "    Not specified" ++ [c_newline; c_newline]
       ++ txt "    ANALYST QUESTION / FOCUS:" ++ [c_newline]
       ++ txt "    General threat hunting and incident triage."
       ++ [c_newline; c_newline]
       ++ txt "    LOGS:" ++ [c_newline]
       ++ txt "    " ++ l ++ [c_newline]
       ++ txt "    ".
Proof. repeat split; reflexivity. Qed.

(** C10.  An entry of [detections] that omits [title] or [description]
    gives a detection with the empty string in that field, and neither
    omission fails the entry: it is accepted as soon as its other fields
    validate. *)
Theorem title_and_description_default_to_empty :
  (forall (o : list (str * pyval)) (r : LogAnalysisResponse)
          (items : list pyval),
     build_response (PyDict o) = Ok r ->
     dict_get o (txt "detections") = Some (PyList items) ->
     forall i d, nth_error items i = Some (PyDict d) ->
       exists det, nth_error (detections r) i = Some det
         /\ (dict_get d (txt "title") = None -> title det = [])
         /\ (dict_get d (txt "description") = None -> description det = []))
  /\ (forall (d : list (str * pyval)) (ds sv : str) (ind : list str),
        dict_get d (txt "title") = None ->
        validate_str (get_default d (txt "description") (PyStr [])) = Some ds ->
        validate_str (get_default d (txt "severity") (PyStr (txt "Medium")))
        = Some sv ->
        validate_list_str (get_default d (txt "indicators") (PyList []))
        = Some ind ->
        detection_of (PyDict d)
        = Ok {| title := []; description := ds; severity := sv;
                indicators := ind |})
  /\ (forall (d : list (str * pyval)) (t sv : str) (ind : list str),
        dict_get d (txt "description") = None ->
        validate_str (get_default d (txt "title") (PyStr [])) = Some t ->
        validate_str (get_default d (txt "severity") (PyStr (txt "Medium")))
        = Some sv ->
        validate_list_str (get_default d (txt "indicators") (PyList []))
        = Some ind ->
        detection_of (PyDict d)
        = Ok {| title := t; description := []; severity := sv;
                indicators := ind |}).
Proof.
  split; [|split].
  - intros o r items H Hd i d Hi.
    pose proof (detections_in_step o r items H Hd) as Hf.
    destruct (Forall2_nth_error _ _ _ Hf i _ Hi) as (det & Hn & Hdet).
    exists det; split; [exact Hn|].
    rewrite detection_of_dict in Hdet; apply new_Detection_ok in Hdet.
    destruct Hdet as (Ht & Hds & _ & _).
    split; intros Hk; rewrite (get_default_absent _ _ _ Hk) in *.
    + rewrite validate_str_str in Ht; inversion Ht; reflexivity.
    + rewrite validate_str_str in Hds; inversion Hds; reflexivity.
  - intros d ds sv ind Ht Hds Hs Hi.
    rewrite detection_of_dict; apply new_Detection_ok.
    rewrite (get_default_absent _ _ _ Ht), validate_str_str; auto.
  - intros d t sv ind Hds Ht Hs Hi.
    rewrite detection_of_dict; apply new_Detection_ok.
    rewrite (get_default_absent _ _ _ Hds), validate_str_str; auto.
Qed.

(** * Further behaviour of the handler *)

(** ** What a request leaves in the trace *)

(** The events of one run of [call_agi_agent]. *)
Lemma call_agi_agent_trace (system user : str) (trace : list event) :
  snd (call_agi_agent system user trace)
  = trace
    ++ (if key_missing then []
        else Posted (agi_post system user)
             :: match client_post (agi_post system user) with
                | Ok resp =>
                    if is_success resp then []
                    else debug_prints resp (request_payload system user)
                | Raise _ => []
                end).
Proof.
  unfold call_agi_agent.
  destruct key_missing; [symmetry; apply app_nil_r|].
  destruct (client_post (agi_post system user)) as [resp|e];
    [destruct (is_success resp)|]; simpl; rewrite <- ?app_assoc; reflexivity.
Qed.

(** Parsing and building add nothing to the trace. *)
Lemma analyze_logs_trace (req : LogAnalysisRequest) (trace : list event) :
  snd (analyze_logs req trace)
  = snd (call_agi_agent system_prompt (user_prompt req) trace).
Proof.
  unfold analyze_logs.
  destruct (call_agi_agent system_prompt (user_prompt req) trace) as [[raw|e] t];
    reflexivity.
Qed.

(** X1.  A request only appends to the trace, and what it appends holds at
    most one outbound call: none when the credential is unset, otherwise
    exactly the one call to the completion endpoint, whatever the service
    answers and whatever becomes of the answer.  Nothing is retried. *)
Theorem single_outbound_call (req : LogAnalysisRequest) (trace : list event) :
  exists events,
    snd (analyze_logs req trace) = trace ++ events
    /\ filter is_post events
       = if key_missing then []
         else [Posted (agi_post system_prompt (user_prompt req))].
Proof.
  rewrite analyze_logs_trace, call_agi_agent_trace.
  eexists; split; [reflexivity|].
  destruct key_missing; [reflexivity|].
  destruct (client_post _) as [resp|e]; [destruct (is_success resp)|];
    reflexivity.
Qed.

(** X2.  A request prints exactly when the service answered with a status
    outside 2xx, and then the five debug lines.  With the credential unset,
    on an error of the HTTP client itself, on a 2xx reply (whether or not
    its payload can then be parsed and validated) nothing is printed. *)
Theorem prints_only_on_error_status
  (req : LogAnalysisRequest) (trace : list event) :
  exists events,
    snd (analyze_logs req trace) = trace ++ events
    /\ filter is_print events
       = if key_missing then []
         else match client_post (agi_post system_prompt (user_prompt req)) with
              | Ok resp =>
                  if is_success resp then []
                  else debug_prints resp
                         (request_payload system_prompt (user_prompt req))
              | Raise _ => []
              end.
Proof.
  rewrite analyze_logs_trace, call_agi_agent_trace.
  eexists; split; [reflexivity|].
  destruct key_missing; [reflexivity|].
  destruct (client_post _) as [resp|e]; [destruct (is_success resp)|];
    reflexivity.
Qed.

(** X3.  Every outbound call a request makes carries the credential: its
    [Authorization] header is [Bearer ] followed by the configured key,
    which is not empty. *)
Theorem every_call_is_authenticated
  (req : LogAnalysisRequest) (trace : list event) :
  exists events,
    snd (analyze_logs req trace) = trace ++ events
    /\ Forall (fun e =>
                 match e with
                 | Posted p =>
                     exists key,
                       AGI_API_KEY = Some key /\ key <> []
                       /\ dict_get (headers p) (txt "Authorization")
                          = Some (txt "Bearer " ++ key)
                 | Printed _ => True
                 end) events.
Proof.
  rewrite analyze_logs_trace, call_agi_agent_trace.
  eexists; split; [reflexivity|].
  unfold key_missing, agi_post, request_headers, key_text.
  destruct AGI_API_KEY as [[|c key]|]; [constructor| |constructor].
  constructor.
  - exists (c :: key); repeat split; discriminate.
  - destruct (client_post _) as [resp|e]; [destruct (is_success resp)|];
      repeat constructor.
Qed.

(** X4.  An error of the HTTP client itself (no connection, no answer
    within the timeout) reaches the caller as it is: it is not turned into
    an [HTTPException], and the trace holds the one call and no print. *)
Theorem transport_error_propagated
  (req : LogAnalysisRequest) (trace : list event) (e : exn) :
  key_missing = false ->
  client_post (agi_post system_prompt (user_prompt req)) = Raise e ->
  analyze_logs req trace
  = (Raise e, trace ++ [Posted (agi_post system_prompt (user_prompt req))]).
Proof.
  intros Hk Hp; unfold analyze_logs, call_agi_agent.
  rewrite Hk, Hp; reflexivity.
Qed.

(** ** The envelope of a 2xx reply *)

(** What [call_agi_agent] does once the service has answered with a 2xx
    status. *)
Lemma call_agi_agent_success
  (system user : str) (trace : list event) (resp : Response) :
  key_missing = false ->
  client_post (agi_post system user) = Ok resp ->
  is_success resp = true ->
  call_agi_agent system user trace
  = (data <- json resp ;;
     choices <- py_getitem data (txt "choices") ;;
     choice <- py_first choices ;;
     message <- py_getitem choice (txt "message") ;;
     py_getitem message (txt "content"),
     trace ++ [Posted (agi_post system user)]).
Proof. intros Hk Hp Hs; unfold call_agi_agent; rewrite Hk, Hp, Hs; reflexivity. Qed.

Lemma analyze_logs_call_failed
  (req : LogAnalysisRequest) (trace trace' : list event) (e : exn) :
  call_agi_agent system_prompt (user_prompt req) trace = (Raise e, trace') ->
  analyze_logs req trace = (Raise e, trace').
Proof. unfold analyze_logs; intros ->; reflexivity. Qed.

(** X5.  Of a 2xx reply only the content of the first choice's message is
    used: whatever else the envelope, the choice or the message hold, and
    whatever choices follow the first, that content is what
    [call_agi_agent] returns, after the one call. *)
Theorem first_choice_content_returned
  (system user : str) (trace : list event) (resp : Response)
  (envelope choice message : list (str * pyval)) (others : list pyval)
  (content : pyval) :
  key_missing = false ->
  client_post (agi_post system user) = Ok resp ->
  is_success resp = true ->
  json resp = Ok (PyDict envelope) ->
  dict_get envelope (txt "choices") = Some (PyList (PyDict choice :: others)) ->
  dict_get choice (txt "message") = Some (PyDict message) ->
  dict_get message (txt "content") = Some content ->
  call_agi_agent system user trace
  = (Ok content, trace ++ [Posted (agi_post system user)]).
Proof.
  intros Hk Hp Hs Hj Hc Hm Hx.
  rewrite (call_agi_agent_success _ _ _ _ Hk Hp Hs), Hj.
  cbn [bind py_getitem]; rewrite Hc.
  cbn [of_option bind py_first hd_error py_getitem]; rewrite Hm.
  cbn [of_option bind py_getitem]; rewrite Hx; reflexivity.
Qed.

(** X6.  A 2xx reply whose body is not the expected envelope fails the
    request with the error of the step that broke, after the one call and
    with nothing printed: the error of [resp.json()] when the body is not
    JSON, [TypeError] when it is JSON but no object, [KeyError] when the
    object has no [choices], [IndexError] when [choices] is an empty
    list. *)
Theorem malformed_envelope_fails
  (req : LogAnalysisRequest) (trace : list event) (resp : Response) :
  key_missing = false ->
  client_post (agi_post system_prompt (user_prompt req)) = Ok resp ->
  is_success resp = true ->
  let after := trace ++ [Posted (agi_post system_prompt (user_prompt req))] in
  (forall e, json resp = Raise e -> analyze_logs req trace = (Raise e, after))
  /\ (forall data, json resp = Ok data -> (forall d, data <> PyDict d) ->
        analyze_logs req trace = (Raise TypeError, after))
  /\ (forall d, json resp = Ok (PyDict d) ->
        dict_get d (txt "choices") = None ->
        analyze_logs req trace = (Raise KeyError, after))
  /\ (forall d, json resp = Ok (PyDict d) ->
        dict_get d (txt "choices") = Some (PyList []) ->
        analyze_logs req trace = (Raise IndexError, after)).
Proof.
  intros Hk Hp Hs after.
  pose proof (call_agi_agent_success _ _ trace _ Hk Hp Hs) as Hc.
  repeat split.
  - intros e He; apply analyze_logs_call_failed.
    rewrite Hc, He; reflexivity.
  - intros data Hd Hn; apply analyze_logs_call_failed.
    rewrite Hc, Hd.
    destruct data as [| | | | | |d]; try reflexivity.
    destruct (Hn d eq_refl).
  - intros d Hd Hn; apply analyze_logs_call_failed.
    rewrite Hc, Hd; cbn [bind py_getitem]; rewrite Hn; reflexivity.
  - intros d Hd Hn; apply analyze_logs_call_failed.
    rewrite Hc, Hd; cbn [bind py_getitem]; rewrite Hn; reflexivity.
Qed.

(** ** Replies and payloads of another type *)

(** X7.  When the content [call_agi_agent] returns is not text (a [null]
    content, a number, a list, an object), [json.loads] raises [TypeError],
    which the [except json.JSONDecodeError] clause does not catch: the
    request fails with [TypeError] and the fallback is not tried. *)
Theorem non_text_content_is_type_error
  (req : LogAnalysisRequest) (trace trace' : list event) (content : pyval) :
  call_agi_agent system_prompt (user_prompt req) trace = (Ok content, trace') ->
  (forall raw, content <> PyStr raw) ->
  analyze_logs req trace = (Raise TypeError, trace').
Proof.
  intros Hc Hn; unfold analyze_logs; rewrite Hc.
  destruct content as [| | | |raw| |]; try reflexivity.
  destruct (Hn raw eq_refl).
Qed.

(** X8.  A payload that is recovered as JSON but is not an object (a list,
    a string, a number, [null]) has no [get]: building the response raises
    [AttributeError], and so does the request. *)
Theorem non_object_payload_is_attribute_error (raw : str) (v : pyval) :
  recover raw = Ok v ->
  (forall o, v <> PyDict o) ->
  build_response v = Raise AttributeError
  /\ forall req trace trace',
       call_agi_agent system_prompt (user_prompt req) trace
       = (Ok (PyStr raw), trace') ->
       analyze_logs req trace = (Raise AttributeError, trace').
Proof.
  intros Hr Hn.
  assert (Hb : build_response v = Raise AttributeError).
  { destruct v as [| | | | | |o]; try reflexivity.
    destruct (Hn o eq_refl). }
  split; [exact Hb|].
  intros req trace trace' Hc.
  rewrite (analyze_logs_after_call _ _ _ _ Hc), Hr; cbn [bind].
  rewrite Hb; reflexivity.
Qed.

Lemma detection_of_non_object (v : pyval) :
  (forall d, v <> PyDict d) -> detection_of v = Raise AttributeError.
Proof.
  intros Hn; destruct v as [| | | | | |d]; try reflexivity.
  destruct (Hn d eq_refl).
Qed.

Lemma build_response_detections (o : list (str * pyval)) (v : pyval) :
  dict_get o (txt "detections") = Some v ->
  build_response (PyDict o)
  = (items <- py_iter v ;;
     detections <- mapM detection_of items ;;
     new_LogAnalysisResponse
       (get_default o (txt "overall_risk_score")
          (PyFloat (parse_float (txt "0.0"))))
       (get_default o (txt "summary") (PyStr []))
       detections
       (get_default o (txt "recommended_actions") (PyList []))
       (get_default o (txt "queries_to_run") (PyList []))).
Proof.
  intros H; unfold build_response, py_get; cbn [bind].
  rewrite (get_default_present _ _ _ _ H); reflexivity.
Qed.

(** X9.  A [detections] value that is not a list is not defaulted.  [null],
    a boolean or a number cannot be iterated: [TypeError].  A non-empty
    string or object is iterated by character or by key, and a string has
    no [get]: [AttributeError], as for a list whose first entry is not an
    object.  An empty string or an empty object passes for an empty list. *)
Theorem detections_of_another_type (o : list (str * pyval)) (v : pyval) :
  dict_get o (txt "detections") = Some v ->
  match v with
  | PyNone | PyBool _ | PyInt _ | PyFloat _ =>
      build_response (PyDict o) = Raise TypeError
  | PyStr (_ :: _) | PyDict (_ :: _) =>
      build_response (PyDict o) = Raise AttributeError
  | PyStr [] | PyDict [] =>
      build_response (PyDict o)
      = build_response (PyDict (dict_set o (txt "detections") (PyList [])))
  | PyList items =>
      forall item rest, items = item :: rest -> (forall d, item <> PyDict d) ->
        build_response (PyDict o) = Raise AttributeError
  end.
Proof.
  intros H.
  assert (E : build_response (PyDict (dict_set o (txt "detections") (PyList [])))
              = new_LogAnalysisResponse
                  (get_default o (txt "overall_risk_score")
                     (PyFloat (parse_float (txt "0.0"))))
                  (get_default o (txt "summary") (PyStr []))
                  []
                  (get_default o (txt "recommended_actions") (PyList []))
                  (get_default o (txt "queries_to_run") (PyList []))).
  { rewrite (build_response_detections _ (PyList []))
      by apply dict_get_set_same.
    rewrite !get_default_set_other by reflexivity; reflexivity. }
  rewrite (build_response_detections o v H).
  destruct v as [|b|z|x|[|c s]|items|[|[k x] d]]; try reflexivity;
    try (rewrite E; reflexivity).
  intros item rest -> Hn; cbn [py_iter bind mapM].
  rewrite (detection_of_non_object item Hn); reflexivity.
Qed.

Lemma mapM_first_failure {A B} (f : A -> res B) (good : list A) (bad : A)
  (rest : list A) (e : exn) :
  Forall (fun a => exists b, f a = Ok b) good ->
  f bad = Raise e ->
  mapM f (good ++ bad :: rest) = Raise e.
Proof.
  intros Hg Hb; induction Hg as [|a good [b Ha] _ IH]; simpl.
  - rewrite Hb; reflexivity.
  - rewrite Ha, IH; reflexivity.
Qed.

(** X10.  One entry of [detections] that cannot be built fails the whole
    request with that entry's error: the entries before it were accepted,
    the entries after it and the other fields of the payload are not looked
    at, and no partial list of detections is returned. *)
Theorem first_bad_entry_fails_the_response
  (o : list (str * pyval)) (good : list pyval) (bad : pyval)
  (rest : list pyval) (e : exn) :
  dict_get o (txt "detections") = Some (PyList (good ++ bad :: rest)) ->
  Forall (fun item => exists d, detection_of item = Ok d) good ->
  detection_of bad = Raise e ->
  build_response (PyDict o) = Raise e.
Proof.
  intros H Hg Hb.
  rewrite (build_response_detections o _ H); cbn [py_iter bind].
  rewrite (mapM_first_failure _ _ _ _ _ Hg Hb); reflexivity.
Qed.

Ltac split_validation :=
  match goal with
  | |- context [match validate_str ?x with _ => _ end] =>
      destruct (validate_str x)
  | |- context [match validate_float ?x with _ => _ end] =>
      destruct (validate_float x)
  | |- context [match validate_list_str (get_default ?o ?k ?x) with _ => _ end] =>
      destruct (validate_list_str (get_default o k x))
  end.

(** X11.  A value that is present but is not a list, [null] for one, is
    not replaced by the empty default of a list field: under [indicators]
    it fails the entry, under [recommended_actions] or [queries_to_run] no
    response is built, and the failure is a validation error when there are
    no detections to fail first. *)
Theorem present_non_list_is_not_defaulted (v : pyval) :
  (forall l, v <> PyList l) ->
  (forall d, dict_get d (txt "indicators") = Some v ->
     detection_of (PyDict d) = Raise ValidationError)
  /\ (forall o k,
        k = txt "recommended_actions" \/ k = txt "queries_to_run" ->
        dict_get o k = Some v ->
        (forall r, build_response (PyDict o) <> Ok r)
        /\ (dict_get o (txt "detections") = None ->
            build_response (PyDict o) = Raise ValidationError)).
Proof.
  intros Hn.
  assert (Hv : validate_list_str v = None).
  { destruct v as [| | | | |l|]; try reflexivity; destruct (Hn l eq_refl). }
  split.
  - intros d Hd; rewrite detection_of_dict; unfold new_Detection.
    rewrite (get_default_present _ _ _ _ Hd), Hv.
    repeat split_validation; reflexivity.
  - intros o k Hk Hd; split.
    + intros r H; apply build_response_ok in H.
      destruct H as (_ & _ & _ & H4 & H5).
      destruct Hk as [-> | ->]; rewrite (get_default_present _ _ _ _ Hd) in *;
        congruence.
    + intros Hdet; unfold build_response, py_get; cbn [bind].
      rewrite (get_default_absent _ _ _ Hdet); cbn [py_iter bind mapM].
      unfold new_LogAnalysisResponse.
      destruct Hk as [-> | ->]; rewrite (get_default_present _ _ _ _ Hd), Hv;
        repeat split_validation; reflexivity.
Qed.

(** X12.  The response depends on the payload through the five keys the
    handler reads and on nothing else, and a detection through the four
    keys of its entry: two objects that agree on them, in whatever order
    and with whatever other keys, give the same result, and setting any
    other key changes nothing. *)
Theorem only_the_read_keys_matter :
  (forall o o' : list (str * pyval),
     (forall k, In k response_keys -> dict_get o k = dict_get o' k) ->
     build_response (PyDict o) = build_response (PyDict o'))
  /\ (forall d d' : list (str * pyval),
        (forall k, In k detection_keys -> dict_get d k = dict_get d' k) ->
        detection_of (PyDict d) = detection_of (PyDict d'))
  /\ (forall (o : list (str * pyval)) (k : str) (v : pyval),
        ~ In k response_keys ->
        build_response (PyDict (dict_set o k v)) = build_response (PyDict o)).
Proof.
  assert (G : forall o o' : list (str * pyval),
             (forall k, In k response_keys -> dict_get o k = dict_get o' k) ->
             build_response (PyDict o) = build_response (PyDict o')).
  { intros o o' H; unfold build_response, py_get, get_default; cbn [bind].
    unfold response_keys in H; cbn [In] in H.
    rewrite !(H _) by auto 10; reflexivity. }
  split; [exact G|split].
  - intros d d' H; rewrite !detection_of_dict; unfold get_default.
    unfold detection_keys in H; cbn [In] in H.
    rewrite !(H _) by auto 10; reflexivity.
  - intros o k v Hk; apply G; intros k' Hk'.
    apply dict_get_set_other.
    destruct (str_eqb k k') eqn:E; [|reflexivity].
    apply str_eqb_eq in E; subst k'; contradiction.
Qed.

(** ** The fallback transform on other replies *)

Lemma lstrip_all (p : char -> bool) (w s : str) :
  forallb p w = true -> lstrip p (w ++ s) = lstrip p s.
Proof.
  induction w as [|c w IH]; simpl; [reflexivity|].
  intros H; apply andb_true_iff in H; destruct H as [-> H]; auto.
Qed.

Lemma rstrip_all (p : char -> bool) (w s : str) :
  forallb p w = true -> rstrip p (s ++ w) = rstrip p s.
Proof.
  intros H; unfold rstrip.
  rewrite rev_app_distr, lstrip_all by (rewrite forallb_rev; exact H).
  reflexivity.
Qed.

Lemma strip_by_tail (p : char -> bool) (s w : str) :
  forallb p w = true -> strip_by p (s ++ w) = strip_by p s.
Proof.
  intros H; unfold strip_by; induction s as [|c s IH].
  - simpl app; rewrite <- (app_nil_r w), lstrip_all by exact H; reflexivity.
  - simpl; destruct (p c); [exact IH|].
    change (c :: s ++ w) with ((c :: s) ++ w); apply rstrip_all; exact H.
Qed.

(** Blanks around a text are gone after [strip()]. *)
Lemma py_strip_pad (before s after : str) :
  forallb is_space before = true -> forallb is_space after = true ->
  py_strip (before ++ s ++ after) = py_strip s.
Proof.
  intros Hb Ha; unfold py_strip.
  rewrite <- (strip_by_tail is_space s after Ha).
  unfold strip_by; rewrite lstrip_all by exact Hb; reflexivity.
Qed.

Lemma cleanup_pad (before s after : str) :
  forallb is_space before = true -> forallb is_space after = true ->
  cleanup (before ++ s ++ after) = cleanup s.
Proof. intros Hb Ha; unfold cleanup; rewrite py_strip_pad by assumption; reflexivity. Qed.

(** A text that neither starts nor ends with a character of the set is
    left as it is. *)
Lemma strip_by_fixed (p : char -> bool) (c x : char) (s m : str) :
  s = c :: m -> p c = false ->
  (exists d, s = d ++ [x]) -> p x = false ->
  strip_by p s = s.
Proof.
  intros Hs Hc [d Hd] Hx; unfold strip_by.
  replace (lstrip p s) with s by (rewrite Hs; simpl; rewrite Hc; reflexivity).
  rewrite Hd; apply rstrip_stop; exact Hx.
Qed.

Lemma json_loads_blank_lead (w s : str) (v : pyval) :
  dull w -> json_loads (w ++ s) = Some v -> json_loads s = Some v.
Proof.
  induction w as [|c w IH]; simpl; [auto|].
  intros Hw H; destruct (dull_cons c w Hw) as [Hc Hw'].
  apply (IH Hw'), (json_loads_lead c); assumption.
Qed.

(** A document starts with something else than a backtick. *)
Lemma document_head (doc : str) (v : pyval) :
  json_loads doc = Some v ->
  exists c d, doc = c :: d /\ (c =? c_backtick)%N = false.
Proof.
  destruct doc as [|c d]; [discriminate|].
  intros H; exists c, d; split; [reflexivity|].
  destruct (N.eqb_spec c c_backtick) as [->|]; [|reflexivity].
  rewrite json_loads_inert_head in H by reflexivity; discriminate H.
Qed.

(** [strip("`")] leaves a document as it is. *)
Lemma strip_ticks_document (doc : str) (v : pyval) :
  json_loads doc = Some v -> py_strip_chars [c_backtick] doc = doc.
Proof.
  intros H.
  destruct (document_head doc v H) as (c & m & Hs & Hc).
  destruct (document_end doc v H) as (d & x & Hd & Hx).
  unfold py_strip_chars.
  apply (strip_by_fixed _ c x doc m Hs); [| exists d; exact Hd |];
    simpl; rewrite ?Hc, ?Hx; reflexivity.
Qed.

Lemma contains_here (p s r : str) :
  after_prefix p s = Some r -> contains p s = true.
Proof. destruct s; simpl; intros ->; reflexivity. Qed.

Lemma contains_tail (p : str) (c : char) (s : str) :
  contains p (c :: s) = false -> contains p s = false.
Proof. simpl; destruct (after_prefix p (c :: s)); [discriminate|auto]. Qed.

Lemma contains_app_l (p a s : str) :
  contains p (a ++ s) = false -> contains p s = false.
Proof.
  induction a as [|c a IH]; simpl app; [auto|].
  intros H; apply IH, (contains_tail p c), H.
Qed.

Lemma after_prefix_app_r (p s r b : str) :
  after_prefix p s = Some r -> after_prefix p (s ++ b) = Some (r ++ b).
Proof.
  revert s; induction p as [|x p IH]; intros s.
  - intros H; inversion H; reflexivity.
  - destruct s as [|y s]; [discriminate|].
    simpl app; rewrite !after_prefix_cons.
    destruct (x =? y)%N; [apply IH|discriminate].
Qed.

Lemma contains_app_r (p s b : str) :
  contains p (s ++ b) = false -> contains p s = false.
Proof.
  induction s as [|c s IH].
  - destruct (after_prefix p []) as [r|] eqn:E.
    + intros H.
      rewrite (contains_here p ([] ++ b) (r ++ b)
                 (after_prefix_app_r _ _ _ b E)) in H.
      discriminate H.
    + intros _; simpl; rewrite E; reflexivity.
  - destruct (after_prefix p (c :: s)) as [r|] eqn:E.
    + intros H.
      rewrite (contains_here p ((c :: s) ++ b) (r ++ b)
                 (after_prefix_app_r _ _ _ b E)) in H.
      discriminate H.
    + intros H; simpl; rewrite E; apply IH.
      apply (contains_tail p c); exact H.
Qed.

(** [replace] changes nothing when the text does not hold the word. *)
Lemma replace_first_absent (old new s : str) :
  contains old s = false -> replace_first old new s = s.
Proof.
  induction s as [|c s IH]; simpl.
  - destruct (after_prefix old []); [discriminate|reflexivity].
  - destruct (after_prefix old (c :: s)); [discriminate|].
    intros H; rewrite (IH H); reflexivity.
Qed.

(** The transform leaves a document that does not hold the word [json] a
    document. *)
Lemma cleanup_document (doc : str) (v : pyval) :
  json_loads doc = Some v ->
  contains (txt "json") doc = false ->
  json_loads (cleanup doc) = Some v.
Proof.
  intros H Hc; unfold cleanup.
  pose proof (json_loads_strip doc v H) as Hs.
  rewrite (strip_ticks_document _ v Hs).
  rewrite replace_first_absent; [exact (json_loads_strip _ v Hs)|].
  unfold py_strip, strip_by.
  destruct (lstrip_split is_space doc) as (a & Ha & _).
  destruct (rstrip_split is_space (lstrip is_space doc)) as (b & Hb & _).
  rewrite Ha, Hb in Hc.
  apply contains_app_l, contains_app_r in Hc; exact Hc.
Qed.

(** X13.  A fenced and tagged document is still recovered when blanks of
    any kind ([strip()] removes them all) come before the opening fence and
    after the closing one, as in a reply that ends with a newline. *)
Theorem fenced_reply_with_blanks_recovered
  (doc : str) (v : pyval) (i j : nat) (before after : str) :
  forallb is_space before = true ->
  forallb is_space after = true ->
  json_loads doc = Some v ->
  recover (before ++ repeat c_backtick (S i) ++ txt "json" ++ doc
           ++ repeat c_backtick (S j) ++ after)
  = Ok v.
Proof.
  intros Hb Ha H.
  replace (before ++ repeat c_backtick (S i) ++ txt "json" ++ doc
           ++ repeat c_backtick (S j) ++ after)
    with (before ++ (repeat c_backtick (S i) ++ txt "json" ++ doc
                     ++ repeat c_backtick (S j)) ++ after)
    by (rewrite <- !app_assoc; reflexivity).
  unfold recover.
  destruct (json_loads (before ++ _ ++ after)) as [v'|] eqn:E.
  - apply json_loads_blank_lead in E; [|apply dull_spaces; exact Hb].
    cbn [repeat app] in E.
    rewrite json_loads_inert_head in E by reflexivity; discriminate E.
  - rewrite cleanup_pad by assumption.
    rewrite (cleanup_fenced doc v i j H), (json_loads_strip doc v H).
    reflexivity.
Qed.

(** X14.  A document in a fence with no tag: the fence is stripped and the
    first occurrence of the word [json] is then taken out of the document
    itself.  The document is recovered when it does not hold the word;
    otherwise what is parsed is the document without it. *)
Theorem untagged_fence (doc : str) (v : pyval) (i j : nat) :
  json_loads doc = Some v ->
  recover (repeat c_backtick (S i) ++ doc ++ repeat c_backtick (S j))
  = of_option JSONDecodeError
      (json_loads (py_strip (replace_first (txt "json") [] doc)))
  /\ (contains (txt "json") doc = false ->
      recover (repeat c_backtick (S i) ++ doc ++ repeat c_backtick (S j))
      = Ok v).
Proof.
  intros H.
  assert (G : recover (repeat c_backtick (S i) ++ doc
                       ++ repeat c_backtick (S j))
              = of_option JSONDecodeError
                  (json_loads (py_strip (replace_first (txt "json") [] doc)))).
  { unfold recover.
    replace (json_loads (repeat c_backtick (S i) ++ doc
                         ++ repeat c_backtick (S j)))
      with (@None pyval)
      by (symmetry; apply (json_loads_inert_head c_backtick); reflexivity).
    f_equal; f_equal; unfold cleanup; f_equal; f_equal.
    destruct (document_head doc v H) as (c & m & Hs & Hc).
    destruct (document_end doc v H) as (d & x & Hd & Hx).
    set (ticks := fun c : char => existsb (N.eqb c) [c_backtick]).
    assert (Hin : py_strip (repeat c_backtick (S i) ++ doc
                            ++ repeat c_backtick (S j))
                  = repeat c_backtick (S i) ++ doc
                    ++ repeat c_backtick (S j)).
    { unfold py_strip.
      apply (strip_by_fixed _ c_backtick c_backtick _
               (repeat c_backtick i ++ doc ++ repeat c_backtick (S j)));
        try reflexivity.
      exists (repeat c_backtick (S i) ++ doc ++ repeat c_backtick j).
      rewrite <- !app_assoc; do 2 f_equal; apply repeat_cons. }
    rewrite Hin; unfold py_strip_chars, strip_by; fold ticks.
    rewrite (lstrip_repeat ticks c_backtick (S i)) by reflexivity.
    replace (lstrip ticks (doc ++ repeat c_backtick (S j)))
      with (doc ++ repeat c_backtick (S j))
      by (rewrite Hs; unfold ticks; simpl; rewrite Hc; reflexivity).
    rewrite (rstrip_repeat ticks c_backtick (S j)) by reflexivity.
    rewrite Hd; apply rstrip_stop; unfold ticks; simpl; rewrite Hx.
    reflexivity. }
  split; [exact G|].
  intros Hc; rewrite G, replace_first_absent by exact Hc.
  rewrite (json_loads_strip doc v H); reflexivity.
Qed.

(** X15.  A document with blanks of any kind around it, and no fence, is
    recovered as long as it does not hold the word [json]: where
    [json.loads] does not skip a blank itself, [strip()] removes it. *)
Theorem blanks_around_document_tolerated
  (doc : str) (v : pyval) (before after : str) :
  forallb is_space before = true ->
  forallb is_space after = true ->
  json_loads doc = Some v ->
  contains (txt "json") doc = false ->
  recover (before ++ doc ++ after) = Ok v.
Proof.
  intros Hb Ha H Hc; unfold recover.
  destruct (json_loads (before ++ doc ++ after)) as [v'|] eqn:E.
  - apply json_loads_blank_lead in E; [|apply dull_spaces; exact Hb].
    apply json_loads_trail in E; [|apply dull_spaces; exact Ha].
    destruct E as [E _]; congruence.
  - rewrite cleanup_pad by assumption.
    rewrite (cleanup_document doc v H Hc); reflexivity.
Qed.

(** X16.  The fallback gives no second chance to a text it has nothing to
    remove from: when the reply is not JSON, [strip()] and [strip("`")]
    leave it as it is and it does not hold the word [json], the cleaned
    text is the reply itself and the request's parse fails. *)
Theorem clean_text_gets_no_second_chance (raw : str) :
  json_loads raw = None ->
  py_strip raw = raw ->
  py_strip_chars [c_backtick] raw = raw ->
  contains (txt "json") raw = false ->
  cleanup raw = raw /\ recover raw = Raise JSONDecodeError.
Proof.
  intros H Hs Ht Hc.
  assert (E : cleanup raw = raw).
  { unfold cleanup; rewrite Hs, Ht, replace_first_absent by exact Hc.
    exact Hs. }
  split; [exact E|].
  unfold recover; rewrite H, E, H; reflexivity.
Qed.

Lemma json_loads_dull (t : str) : dull t -> json_loads t = None.
Proof.
  intros Ht; destruct (json_loads t) as [v|] eqn:E; [|reflexivity].
  rewrite <- (app_nil_r t) in E.
  apply json_loads_blank_lead in E; [discriminate E|exact Ht].
Qed.

Lemma dull_rstrip (p : char -> bool) (t : str) : dull t -> dull (rstrip p t).
Proof.
  intros Ht; unfold rstrip, dull; rewrite forallb_rev.
  apply dull_lstrip; unfold dull; rewrite forallb_rev; exact Ht.
Qed.

Lemma dull_without_json (t : str) : dull t -> contains (txt "json") t = false.
Proof.
  induction t as [|c t IH]; [reflexivity|].
  intros Ht; destruct (dull_cons c t Ht) as [Hc Ht'].
  simpl; rewrite (after_prefix_inert _ c t Hc) by reflexivity.
  exact (IH Ht').
Qed.

(** X17.  A reply made of nothing but blanks and backticks (the empty
    reply, a blank one, an empty fence) is not JSON before or after the
    cleanup: the parse fails with [JSONDecodeError]. *)
Theorem blank_reply_fails (raw : str) :
  forallb (fun c => is_space c || (c =? c_backtick)%N) raw = true ->
  recover raw = Raise JSONDecodeError.
Proof.
  intros H; change (dull raw) in H.
  unfold recover; rewrite (json_loads_dull raw H).
  rewrite json_loads_dull; [reflexivity|].
  unfold cleanup, py_strip, py_strip_chars, strip_by.
  assert (D : dull (rstrip (fun c => existsb (N.eqb c) [c_backtick])
                      (lstrip (fun c => existsb (N.eqb c) [c_backtick])
                         (rstrip is_space (lstrip is_space raw)))))
    by (repeat first [apply dull_rstrip | apply dull_lstrip]; exact H).
  rewrite replace_first_absent by (apply dull_without_json; exact D).
  apply dull_rstrip, dull_lstrip; exact D.
Qed.

Lemma after_prefix_head (p : str) (c : char) (s : str) :
  match p with
  | [] => False
  | x :: _ => (c =? x)%N = false
  end ->
  after_prefix p (c :: s) = None.
Proof.
  destruct p as [|x p]; [contradiction|].
  intros H; rewrite after_prefix_cons, N.eqb_sym, H; reflexivity.
Qed.

(** No value starts with another character than the ones of
    [opens_value]. *)
Lemma scan_value_bad_head
  (scan_string : str -> outcome (str * str))
  (next_item : str -> list pyval -> outcome (pyval * str))
  (next_pair : str -> list (str * pyval) -> outcome (pyval * str))
  (c : char) (s : str) :
  opens_value c = false ->
  scan_value scan_string next_item next_pair (c :: s) = Bad.
Proof.
  intros H; unfold opens_value in H.
  apply orb_false_iff in H; destruct H as [H Hd].
  simpl in H; repeat (apply orb_false_iff in H; destruct H as [? H]).
  assert (Hzero : (c =? 48)%N = false).
  { destruct (N.eqb_spec c 48) as [->|]; [discriminate Hd|reflexivity]. }
  unfold scan_value, scan_literal, scan_constant.
  repeat rewrite (after_prefix_head _ c s) by (simpl; assumption).
  unfold match_number, match_integer, match_unsigned.
  repeat match goal with
         | E : (c =? ?k)%N = false |- context [(c =? ?k)%N] => rewrite E
         end.
  rewrite Hd; reflexivity.
Qed.

Lemma json_loads_bad_head (c : char) (s : str) :
  opens_value c = false -> is_json_ws c = false -> json_loads (c :: s) = None.
Proof.
  intros Hc Hw; unfold json_loads, decode, skip_ws.
  simpl lstrip; rewrite Hw.
  simpl scan_once; rewrite scan_value_bad_head by exact Hc; reflexivity.
Qed.

Lemma not_space_not_json_ws (c : char) :
  is_space c = false -> is_json_ws c = false.
Proof.
  intros H; destruct (is_json_ws c) eqn:E; [|reflexivity].
  unfold is_json_ws in E.
  repeat (apply orb_true_iff in E; destruct E as [E|E]);
    apply N.eqb_eq in E; subst c; discriminate H.
Qed.

Lemma lstrip_mid (p : char -> bool) (a : str) (c : char) (b : str) :
  p c = false -> lstrip p (a ++ c :: b) = lstrip p a ++ c :: b.
Proof.
  intros Hc; induction a as [|x a IH]; simpl; [rewrite Hc; reflexivity|].
  destruct (p x); [exact IH|reflexivity].
Qed.

Lemma rstrip_mid (p : char -> bool) (a : str) (c : char) (b : str) :
  p c = false -> rstrip p (a ++ c :: b) = a ++ c :: rstrip p b.
Proof.
  intros Hc; unfold rstrip.
  rewrite rev_app_distr; simpl rev; rewrite <- app_assoc; simpl app.
  rewrite lstrip_mid by exact Hc.
  rewrite rev_app_distr; simpl rev.
  rewrite rev_involutive, <- app_assoc; reflexivity.
Qed.

Lemma dull_ticks (n : nat) : dull (repeat c_backtick n).
Proof. induction n as [|n IH]; [reflexivity|exact IH]. Qed.

(** X19.  Text in front of the document is not handled.  When the reply,
    after leading blanks and backticks, goes on with a character that no
    JSON value starts with (prose, or a tag such as [JSON] in capitals) and
    does not hold the word [json], neither parse can succeed and the
    request's parse fails with [JSONDecodeError]. *)
Theorem text_before_the_document_fails
  (before : str) (i : nat) (c : char) (rest : str) :
  forallb is_space before = true ->
  opens_value c = false ->
  is_space c = false ->
  (c =? c_backtick)%N = false ->
  contains (txt "json") (c :: rest) = false ->
  recover (before ++ repeat c_backtick i ++ c :: rest)
  = Raise JSONDecodeError.
Proof.
  intros Hb Ho Hs Ht Hj.
  pose proof (not_space_not_json_ws c Hs) as Hw.
  set (ticks := fun c : char => existsb (N.eqb c) [c_backtick]).
  assert (Hticks : ticks c = false) by (unfold ticks; simpl; rewrite Ht; reflexivity).
  unfold recover.
  assert (D : json_loads (before ++ repeat c_backtick i ++ c :: rest) = None).
  { destruct (json_loads _) as [v|] eqn:E; [|reflexivity].
    rewrite app_assoc in E; apply json_loads_blank_lead in E.
    - rewrite json_loads_bad_head in E by assumption; discriminate E.
    - unfold dull; rewrite forallb_app.
      rewrite (dull_spaces before Hb), (dull_ticks i); reflexivity. }
  rewrite D.
  assert (S1 : py_strip (before ++ repeat c_backtick i ++ c :: rest)
               = repeat c_backtick i ++ c :: rstrip is_space rest).
  { unfold py_strip, strip_by; rewrite lstrip_all by exact Hb.
    replace (lstrip is_space (repeat c_backtick i ++ c :: rest))
      with (repeat c_backtick i ++ c :: rest)
      by (destruct i; simpl; [rewrite Hs|]; reflexivity).
    apply rstrip_mid; exact Hs. }
  assert (S2 : py_strip_chars [c_backtick]
                 (repeat c_backtick i ++ c :: rstrip is_space rest)
               = c :: rstrip ticks (rstrip is_space rest)).
  { unfold py_strip_chars, strip_by; fold ticks.
    rewrite (lstrip_repeat ticks c_backtick i) by reflexivity.
    simpl lstrip; rewrite Hticks.
    apply (rstrip_mid ticks []); exact Hticks. }
  assert (S3 : contains (txt "json") (c :: rstrip ticks (rstrip is_space rest))
               = false).
  { destruct (rstrip_split is_space rest) as (t1 & H1 & _).
    destruct (rstrip_split ticks (rstrip is_space rest)) as (t2 & H2 & _).
    rewrite H1, H2, <- app_assoc in Hj.
    apply (contains_app_r _ (c :: _) (t2 ++ t1)); exact Hj. }
  unfold cleanup; rewrite S1, S2, replace_first_absent by exact S3.
  replace (py_strip (c :: rstrip ticks (rstrip is_space rest)))
    with (c :: rstrip is_space (rstrip ticks (rstrip is_space rest))).
  - rewrite json_loads_bad_head by assumption; reflexivity.
  - unfold py_strip, strip_by; simpl lstrip; rewrite Hs.
    symmetry; apply (rstrip_mid is_space []); exact Hs.
Qed.

(** ** The ways a request fails *)

Lemma bind_raise {A B} (m : res A) (k : A -> res B) (e : exn) :
  bind m k = Raise e -> m = Raise e \/ exists a, m = Ok a /\ k a = Raise e.
Proof.
  destruct m as [a|e']; unfold bind; intros H;
    [right; exists a; split; [reflexivity|exact H]
    | left; inversion H; reflexivity].
Qed.

Lemma py_getitem_errors (v : pyval) (k : str) (e : exn) :
  py_getitem v k = Raise e -> e = KeyError \/ e = TypeError.
Proof.
  destruct v as [| | | | | |d]; simpl; try (intros H; inversion H; auto; fail).
  destruct (dict_get d k); simpl; intros H; inversion H; auto.
Qed.

Lemma py_first_errors (v : pyval) (e : exn) :
  py_first v = Raise e -> e = IndexError \/ e = KeyError \/ e = TypeError.
Proof.
  destruct v as [| | | |s|l|d]; simpl; try (intros H; inversion H; auto; fail).
  - destruct (hd_error s); simpl; intros H; inversion H; auto.
  - destruct (hd_error l); simpl; intros H; inversion H; auto.
Qed.

Lemma envelope_errors (resp : Response) (e : exn) :
  (data <- json resp ;;
   choices <- py_getitem data (txt "choices") ;;
   choice <- py_first choices ;;
   message <- py_getitem choice (txt "message") ;;
   py_getitem message (txt "content")) = Raise e ->
  json resp = Raise e \/ e = TypeError \/ e = KeyError \/ e = IndexError.
Proof.
  intros H.
  apply bind_raise in H; destruct H as [H|(data & _ & H)]; [auto|right].
  apply bind_raise in H; destruct H as [H|(choices & _ & H)];
    [apply py_getitem_errors in H; tauto|].
  apply bind_raise in H; destruct H as [H|(choice & _ & H)];
    [apply py_first_errors in H; tauto|].
  apply bind_raise in H; destruct H as [H|(message & _ & H)];
    apply py_getitem_errors in H; tauto.
Qed.

Lemma mapM_raise {A B} (f : A -> res B) (l : list A) (e : exn) :
  mapM f l = Raise e -> exists a, In a l /\ f a = Raise e.
Proof.
  induction l as [|a l IH]; simpl; [discriminate|].
  intros H; apply bind_raise in H; destruct H as [H|(b & _ & H)].
  - exists a; auto.
  - apply bind_raise in H; destruct H as [H|(bs & _ & H)]; [|discriminate H].
    destruct (IH H) as (a' & Hin & Ha); exists a'; auto.
Qed.

Lemma detection_of_errors (v : pyval) (e : exn) :
  detection_of v = Raise e -> e = AttributeError \/ e = ValidationError.
Proof.
  destruct v as [| | | | | |d]; try (intros H; inversion H; auto; fail).
  rewrite detection_of_dict; unfold new_Detection.
  repeat split_validation;
    try destruct (validate_list_str _);
    intros H; inversion H; auto.
Qed.

Lemma build_response_errors (v : pyval) (e : exn) :
  build_response v = Raise e ->
  e = AttributeError \/ e = TypeError \/ e = ValidationError.
Proof.
  destruct v as [| | | | | |o]; try (intros H; inversion H; auto; fail).
  unfold build_response, py_get; cbn [bind]; intros H.
  apply bind_raise in H; destruct H as [H|(items & _ & H)].
  - destruct (get_default o (txt "detections") (PyList []));
      inversion H; auto.
  - apply bind_raise in H; destruct H as [H|(ds & _ & H)].
    + apply mapM_raise in H; destruct H as (a & _ & H).
      apply detection_of_errors in H; tauto.
    + unfold new_LogAnalysisResponse in H; revert H.
      repeat split_validation; intros H; inversion H; auto.
Qed.

Lemma parse_reply_errors (v : pyval) (e : exn) :
  parse_reply v = Raise e -> e = TypeError \/ e = JSONDecodeError.
Proof.
  destruct v as [| | | |raw| |]; try (intros H; inversion H; auto; fail).
  unfold parse_reply, recover.
  destruct (json_loads raw); [discriminate|].
  destruct (json_loads (cleanup raw)); simpl; intros H; inversion H; auto.
Qed.

(** X20.  The failures that carry a status.  The handler raises an
    [HTTPException] of its own in two cases only: status 500 with the fixed
    message when the credential is unset, and the status of a reply outside
    2xx with the prefixed body.  A request that fails with an
    [HTTPException] fails in one of these two ways, unless the exception
    came out of the HTTP client or of [resp.json()] as it is: reading the
    envelope, parsing the payload and building the response never raise
    one. *)
Theorem http_exceptions_of_a_request
  (req : LogAnalysisRequest) (trace : list event) (status : Z) (detail : str) :
  fst (analyze_logs req trace) = Raise (HTTPException status detail) ->
  let post := agi_post system_prompt (user_prompt req) in
  (key_missing = true /\ status = 500%Z /\ detail = key_message)
  \/ (key_missing = false
      /\ client_post post = Raise (HTTPException status detail))
  \/ (exists resp,
        key_missing = false /\ client_post post = Ok resp
        /\ ((is_success resp = false
             /\ status = status_code resp
             /\ detail = txt "AGI API error: " ++ text resp)
            \/ (is_success resp = true
                /\ json resp = Raise (HTTPException status detail)))).
Proof.
  intros H post; subst post; revert H.
  unfold analyze_logs, call_agi_agent.
  destruct key_missing; [intros H; inversion H; auto|].
  destruct (client_post _) as [resp|e0] eqn:Hp;
    [|intros H; inversion H; auto].
  intros H; right; right; exists resp.
  split; [reflexivity|split; [reflexivity|]].
  destruct (is_success resp); [right|inversion H; auto].
  split; [reflexivity|].
  destruct (data <- json resp ;; _) as [raw|e0] eqn:Hc; cbn [fst] in H.
  - apply bind_raise in H; destruct H as [H|(result & _ & H)].
    + apply parse_reply_errors in H.
      destruct H as [H|H]; discriminate H.
    + apply build_response_errors in H.
      destruct H as [H|[H|H]]; discriminate H.
  - inversion H; subst e0.
    apply envelope_errors in Hc.
    destruct Hc as [Hc|[Hc|[Hc|Hc]]]; [exact Hc | discriminate Hc ..].
Qed.

(** ** The prompt *)

(** X18.  The prompt does not delimit its fields: the logs and the
    analyst's question are pasted in as they are, so text that ends a
    question, section header included, reads the same as text that starts
    the logs.  Two different requests then send the same prompt. *)
Theorem prompt_fields_are_not_delimited
  (e : option str) (c : char) (q moved l : str) :
  let header := [c_newline; c_newline] ++ txt "    LOGS:" ++ [c_newline]
                ++ txt "    " in
  user_prompt {| logs := l; environment := e;
                 question := Some ((c :: q) ++ header ++ moved) |}
  = user_prompt {| logs := moved ++ header ++ l; environment := e;
                   question := Some (c :: q) |}
  /\ Some ((c :: q) ++ header ++ moved) <> Some (c :: q).
Proof.
  intros header; split.
  - unfold user_prompt; cbn [logs environment question py_or].
    cbn [app]; rewrite <- !app_assoc; reflexivity.
  - intros E.
    assert (L : length ((c :: q) ++ header ++ moved) = length (c :: q))
      by congruence.
    unfold header in L; rewrite !length_app in L; simpl in L; lia.
Qed.

End Properties.

(** * The decoder and the fallback on small inputs *)

Section Instance.

#[local] Existing Instance sample_floats.
#[local] Existing Instance strict.

Example loads_numbers :
  json_loads (txt "[0, -12, 2.5e3, 1E-2, NaN, -Infinity]")
  = Some (PyList [PyInt 0; PyInt (-12); PyFloat (txt "2.5e3");
                  PyFloat (txt "1E-2"); PyFloat (txt "NaN");
                  PyFloat (txt "-Infinity")]).
Proof. vm_compute; reflexivity. Qed.

Example loads_last_key_wins :
  json_loads
    (txt "{" ++ quoted "a" ++ txt ": 1, " ++ quoted "b" ++ txt ": [], "
     ++ quoted "a" ++ txt ": null}")
  = Some (PyDict [(txt "a", PyNone); (txt "b", PyList [])]).
Proof. vm_compute; reflexivity. Qed.

Example loads_escapes :
  json_loads (c_quote :: txt "\u00e9\n\ud83d\ude00\ud83d!" ++ [c_quote])
  = Some (PyStr [233; 10; 128512; 55357; 33]%N).
Proof. vm_compute; reflexivity. Qed.

Example loads_rejects :
  sample_loads (txt "[1,]") = None
  /\ sample_loads (txt "01") = None
  /\ sample_loads (txt "{} {}") = None
  /\ sample_loads (c_quote :: 9%N :: [c_quote]) = None
  /\ sample_loads (txt "{'a': 1}") = None
  /\ sample_loads [] = None.
Proof. vm_compute; repeat split. Qed.

Example cleanup_fence :
  cleanup ([c_newline] ++ txt "```json" ++ [c_newline] ++ txt "{}"
           ++ [c_newline] ++ txt "```" ++ [c_newline])
  = txt "{}".
Proof. vm_compute; reflexivity. Qed.

(** * The contract on the instance *)

Lemma fenced_sample_recovered :
  sample_recover sample_fenced = sample_recover sample_document
  /\ sample_recover sample_document = Ok (PyDict sample_object).
Proof.
  apply (@fenced_json_recovered sample_floats sample_document
           (PyDict sample_object) 2 2).
  vm_compute; reflexivity.
Defined.


Lemma sample_without_key :
  sample_analyze (answering None sample_payload)
  = (Raise (HTTPException 500 key_message), [])
  /\ forall system user,
       call_agi_agent (W := answering None sample_payload) system user []
       = (Raise (HTTPException 500 key_message), []).
Proof.
  apply (@missing_key_is_server_error sample_floats strict
           (answering None sample_payload) sample_request []).
  reflexivity.
Defined.

Lemma sample_prose_fails :
  sample_recover sample_prose = Raise JSONDecodeError
  /\ sample_analyze (answering sample_key sample_prose)
     = (Raise JSONDecodeError,
        [Posted (sample_post (answering sample_key sample_prose))]).
Proof.
  destruct (@unrecoverable_payload_fails sample_floats strict
              (answering sample_key sample_prose) sample_prose) as [H1 H2].
  - vm_compute; reflexivity.
  - vm_compute; reflexivity.
  - split; [exact H1|].
    apply (H2 sample_request []).
    vm_compute; reflexivity.
Defined.

Lemma quiet_sample_defaults :
  sample_build quiet_object
  = Ok {| overall_risk_score := txt "3.5"; summary := txt "Nothing found";
          detections := []; recommended_actions := [];
          queries_to_run := [] |}
  /\ sample_build []
     = Ok {| overall_risk_score := txt "0.0"; summary := [];
             detections := []; recommended_actions := [];
             queries_to_run := [] |}.
Proof.
  split.
  - apply (proj1 (@missing_top_level_fields_default sample_floats strict
                    (fun s => eq_refl) (fun x => eq_refl) quiet_object)).
    repeat split.
  - apply (proj2 (@missing_top_level_fields_default sample_floats strict
                    (fun s => eq_refl) (fun x => eq_refl) [])); reflexivity.
Defined.

Lemma bare_entry_gets_Medium :
  exists r det,
    sample_build (listing bare_entry) = Ok r
    /\ nth_error (detections r) 0 = Some det
    /\ severity det = txt "Medium"
    /\ indicators det = [].
Proof.
  destruct (@severity_defaults_to_Medium sample_floats strict
              (fun s => eq_refl)) as [H _].
  destruct (sample_build (listing bare_entry)) as [r|e] eqn:E;
    [|vm_compute in E; discriminate E].
  destruct (H (listing bare_entry) r [PyDict bare_entry] E eq_refl) as [_ H'].
  destruct (H' 0 bare_entry eq_refl) as (det & Hn & Hs & Hi).
  exists r, det; repeat split; auto.
Defined.

Lemma sample_refusal_propagated :
  sample_analyze (refusing 503 (txt "busy"))
  = (Raise (HTTPException 503 (txt "AGI API error: busy")),
     [Posted (sample_post (refusing 503 (txt "busy")))]
     ++ debug_prints (reply 503 (txt "busy"))
          (request_payload system_prompt (user_prompt sample_request))).
Proof.
  apply (@external_error_propagated sample_floats strict
           (refusing 503 (txt "busy")) sample_request []
           (reply 503 (txt "busy")));
    reflexivity.
Defined.

(** C7, as the specification words it: the detail of the propagated error
    is not the body text of the external reply. *)
Lemma error_detail_is_not_the_body :
  fst (sample_analyze (refusing 503 (txt "busy")))
  = Raise (HTTPException 503 (txt "AGI API error: busy"))
  /\ txt "AGI API error: busy" <> text (reply 503 (txt "busy")).
Proof. split; [vm_compute; reflexivity | discriminate]. Qed.



Lemma untitled_entry_gets_empty_strings :
  exists r det,
    sample_build (listing untitled_entry) = Ok r
    /\ nth_error (detections r) 0 = Some det
    /\ title det = []
    /\ description det = [].
Proof.
  destruct (@title_and_description_default_to_empty sample_floats strict
              (fun s => eq_refl)) as [H _].
  destruct (sample_build (listing untitled_entry)) as [r|e] eqn:E;
    [|vm_compute in E; discriminate E].
  destruct (H (listing untitled_entry) r [PyDict untitled_entry] E eq_refl
              0 untitled_entry eq_refl) as (det & Hn & Ht & Hd).
  exists r, det; repeat split; auto.
Defined.

(** * Further behaviour on the instance *)

Lemma unreachable_service_error :
  sample_analyze unreachable
  = (Raise TransportError, [Posted (sample_post unreachable)]).
Proof.
  apply (@transport_error_propagated sample_floats strict unreachable
           sample_request [] TransportError);
    reflexivity.
Defined.

Lemma first_of_two_choices :
  call_agi_agent (W := serving (reply 200 two_choices))
    system_prompt (user_prompt sample_request) []
  = (Ok (PyStr (txt "first")),
     [Posted (sample_post (serving (reply 200 two_choices)))]).
Proof.
  apply (@first_choice_content_returned sample_floats
           (serving (reply 200 two_choices))
           system_prompt (user_prompt sample_request) []
           (reply 200 two_choices)
           [ (txt "id", PyInt 7);
             (txt "choices",
              PyList
                [ PyDict [ (txt "index", PyInt 0);
                           (txt "message",
                            PyDict [(txt "content", PyStr (txt "first"))]) ];
                  PyDict [ (txt "message",
                            PyDict [(txt "content", PyStr (txt "second"))]) ] ]) ]
           [ (txt "index", PyInt 0);
             (txt "message", PyDict [(txt "content", PyStr (txt "first"))]) ]
           [ (txt "content", PyStr (txt "first")) ]
           [ PyDict [ (txt "message",
                       PyDict [(txt "content", PyStr (txt "second"))]) ] ]
           (PyStr (txt "first")));
    vm_compute; reflexivity.
Defined.

Lemma reply_without_choices_fails :
  sample_analyze (serving (reply 200 no_choices))
  = (Raise IndexError, [Posted (sample_post (serving (reply 200 no_choices)))]).
Proof.
  apply (proj2 (proj2 (proj2
           (@malformed_envelope_fails sample_floats strict
              (serving (reply 200 no_choices)) sample_request []
              (reply 200 no_choices) eq_refl eq_refl eq_refl)))
           [(txt "choices", PyList [])]);
    vm_compute; reflexivity.
Defined.

Lemma null_content_is_type_error :
  sample_analyze (serving (reply 200 null_content))
  = (Raise TypeError,
     [Posted (sample_post (serving (reply 200 null_content)))]).
Proof.
  apply (@non_text_content_is_type_error sample_floats strict
           (serving (reply 200 null_content)) sample_request []
           [Posted (sample_post (serving (reply 200 null_content)))] PyNone).
  - vm_compute; reflexivity.
  - intros raw; discriminate.
Defined.

Lemma list_payload_is_attribute_error :
  @build_response sample_floats strict (PyList []) = Raise AttributeError
  /\ sample_analyze (answering sample_key (txt "[]"))
     = (Raise AttributeError,
        [Posted (sample_post (answering sample_key (txt "[]")))]).
Proof.
  destruct (@non_object_payload_is_attribute_error sample_floats strict
              (answering sample_key (txt "[]")) (txt "[]") (PyList []))
    as [H1 H2].
  - vm_compute; reflexivity.
  - intros o; discriminate.
  - split; [exact H1|].
    apply (H2 sample_request []).
    vm_compute; reflexivity.
Defined.

Lemma null_detections_is_type_error :
  sample_build [(txt "detections", PyNone)] = Raise TypeError.
Proof.
  exact (@detections_of_another_type sample_floats strict
           [(txt "detections", PyNone)] PyNone eq_refl).
Defined.

Lemma entry_after_a_good_one_fails :
  sample_build
    [ (txt "summary", PyStr (txt "Nothing found"));
      (txt "detections",
       PyList [PyDict bare_entry; PyNone; PyDict untitled_entry]) ]
  = Raise AttributeError.
Proof.
  apply (@first_bad_entry_fails_the_response sample_floats strict _
           [PyDict bare_entry] PyNone [PyDict untitled_entry] AttributeError).
  - reflexivity.
  - repeat constructor.
    exists {| title := txt "Brute force";
              description := txt "Repeated failed logins";
              severity := txt "Medium"; indicators := [] |}.
    vm_compute; reflexivity.
  - reflexivity.
Defined.

Lemma null_list_fields_fail :
  @detection_of sample_floats strict
    (PyDict [ (txt "title", PyStr (txt "Brute force"));
              (txt "indicators", PyNone) ])
  = Raise ValidationError
  /\ sample_build [(txt "recommended_actions", PyNone)]
     = Raise ValidationError.
Proof.
  destruct (@present_non_list_is_not_defaulted sample_floats strict PyNone)
    as [H1 H2].
  - intros l; discriminate.
  - split.
    + apply H1; reflexivity.
    + apply (H2 [(txt "recommended_actions", PyNone)]
                (txt "recommended_actions"));
        [left; reflexivity | reflexivity | reflexivity].
Defined.

Lemma unread_key_changes_nothing :
  sample_build (dict_set sample_object (txt "model") (PyStr (txt "agi-latest")))
  = sample_build sample_object.
Proof.
  apply (proj2 (proj2 (@only_the_read_keys_matter sample_floats strict))).
  unfold response_keys; cbn [In].
  intros [H|[H|[H|[H|[H|[]]]]]]; vm_compute in H; discriminate H.
Defined.

Lemma fenced_reply_with_newlines_recovered :
  sample_recover
    ([c_newline] ++ repeat c_backtick 3 ++ txt "json" ++ sample_document
     ++ repeat c_backtick 3 ++ [c_newline])
  = Ok (PyDict sample_object).
Proof.
  apply (@fenced_reply_with_blanks_recovered sample_floats sample_document
           (PyDict sample_object) 2 2 [c_newline] [c_newline]);
    vm_compute; reflexivity.
Defined.

Lemma untagged_fence_eats_the_word :
  sample_recover (repeat c_backtick 3 ++ format_document ++ repeat c_backtick 3)
  = Ok (PyDict [(txt "format", PyStr [])])
  /\ sample_recover
       (repeat c_backtick 3 ++ sample_document ++ repeat c_backtick 3)
     = Ok (PyDict sample_object).
Proof.
  split.
  - unfold sample_recover.
    rewrite (proj1 (@untagged_fence sample_floats format_document
                      (PyDict [(txt "format", PyStr (txt "json"))]) 2 2
                      eq_refl)).
    vm_compute; reflexivity.
  - apply (proj2 (@untagged_fence sample_floats sample_document
                    (PyDict sample_object) 2 2 eq_refl)).
    vm_compute; reflexivity.
Defined.

Lemma document_between_odd_blanks :
  sample_recover ([160%N] ++ sample_payload ++ [12%N; c_newline])
  = Ok (PyDict sample_object).
Proof.
  apply (@blanks_around_document_tolerated sample_floats sample_payload
           (PyDict sample_object) [160%N] [12%N; c_newline]);
    vm_compute; reflexivity.
Defined.

Lemma sample_prose_is_left_alone :
  cleanup sample_prose = sample_prose
  /\ sample_recover sample_prose = Raise JSONDecodeError.
Proof.
  apply (@clean_text_gets_no_second_chance sample_floats sample_prose);
    vm_compute; reflexivity.
Defined.

Lemma empty_fence_fails :
  sample_recover [] = Raise JSONDecodeError
  /\ sample_recover
       (repeat c_backtick 3 ++ txt "  " ++ [c_newline] ++ repeat c_backtick 3)
     = Raise JSONDecodeError.
Proof.
  split; apply (@blank_reply_fails sample_floats); reflexivity.
Defined.

Lemma capital_tag_and_prose_fail :
  sample_recover
    (repeat c_backtick 3 ++ txt "JSON" ++ [c_newline] ++ sample_payload
     ++ [c_newline] ++ repeat c_backtick 3)
  = Raise JSONDecodeError
  /\ sample_recover (txt "Here is the analysis: " ++ sample_payload)
     = Raise JSONDecodeError.
Proof.
  split.
  - apply (@text_before_the_document_fails sample_floats [] 3 74%N
             (txt "SON" ++ [c_newline] ++ sample_payload ++ [c_newline]
              ++ repeat c_backtick 3));
      vm_compute; reflexivity.
  - apply (@text_before_the_document_fails sample_floats [] 0 72%N
             (txt "ere is the analysis: " ++ sample_payload));
      vm_compute; reflexivity.
Defined.

Lemma refusal_is_the_service_s_status :
  (key_missing (W := refusing 503 (txt "busy")) = true
   /\ 503%Z = 500%Z /\ txt "AGI API error: busy" = key_message)
  \/ (key_missing (W := refusing 503 (txt "busy")) = false
      /\ client_post (World := refusing 503 (txt "busy"))
           (sample_post (refusing 503 (txt "busy")))
         = Raise (HTTPException 503 (txt "AGI API error: busy")))
  \/ (exists resp,
        key_missing (W := refusing 503 (txt "busy")) = false
        /\ client_post (World := refusing 503 (txt "busy"))
             (sample_post (refusing 503 (txt "busy")))
           = Ok resp
        /\ ((is_success resp = false
             /\ 503%Z = status_code resp
             /\ txt "AGI API error: busy"
                = txt "AGI API error: " ++ text resp)
            \/ (is_success resp = true
                /\ json resp
                   = Raise (HTTPException 503 (txt "AGI API error: busy"))))).
Proof.
  apply (@http_exceptions_of_a_request sample_floats strict
           (refusing 503 (txt "busy")) sample_request []
           503%Z (txt "AGI API error: busy")).
  vm_compute; reflexivity.
Defined.

End Instance.
